(** * AdStack ml-service: the Merkle commitment subsystem

    A shallow embedding of [ml-service/utils/merkle.py] (class [MerkleTree],
    [create_fraud_proof], [verify_fraud_proof]) and the properties of it
    that the specification states.

    Conventions.
    - A Python [str] is a Rocq [string]: the sequence of bytes of its UTF-8
      encoding, so [data.encode()] reads the bytes off and [+] on [str] is
      [++].  Every digest is ASCII.
    - A Python [int] is a [Z]; a Python [float] is a [spec_float] (sign,
      mantissa, exponent), of which only the [.4f] rendering is used.
    - A function that can raise returns a [result]; exceptions are values
      of [exn]. *)

From Stdlib Require Import ZArith List String Ascii Bool Lia.
From Stdlib Require Import DecimalString SpecFloat.
From Equations Require Import Equations.
Import ListNotations.

Local Open Scope string_scope.
Local Open Scope list_scope.
Local Open Scope Z_scope.

(* ===================================================================== *)
(** ** SHA-256 ([hashlib.sha256], FIPS 180-4) on 32-bit words held in [Z] *)
(* ===================================================================== *)

Module SHA256.

Definition wrap32 (x : Z) : Z := x mod 2 ^ 32.
Definition add32 (x y : Z) : Z := wrap32 (x + y).

Definition shr (n x : Z) : Z := Z.shiftr x n.
Definition rotr (n x : Z) : Z :=
  Z.lor (Z.shiftr x n) (wrap32 (Z.shiftl x (32 - n))).
Definition not32 (x : Z) : Z := Z.lxor x (2 ^ 32 - 1).

Definition ch (x y z : Z) : Z := Z.lxor (Z.land x y) (Z.land (not32 x) z).
Definition maj (x y z : Z) : Z :=
  Z.lxor (Z.lxor (Z.land x y) (Z.land x z)) (Z.land y z).
Definition bsig0 (x : Z) : Z := Z.lxor (Z.lxor (rotr 2 x) (rotr 13 x)) (rotr 22 x).
Definition bsig1 (x : Z) : Z := Z.lxor (Z.lxor (rotr 6 x) (rotr 11 x)) (rotr 25 x).
Definition ssig0 (x : Z) : Z := Z.lxor (Z.lxor (rotr 7 x) (rotr 18 x)) (shr 3 x).
Definition ssig1 (x : Z) : Z := Z.lxor (Z.lxor (rotr 17 x) (rotr 19 x)) (shr 10 x).

(** The sixty-four round constants. *)
Definition round_constants : list Z :=
  [ 0x428A2F98; 0x71374491; 0xB5C0FBCF; 0xE9B5DBA5;
    0x3956C25B; 0x59F111F1; 0x923F82A4; 0xAB1C5ED5;
    0xD807AA98; 0x12835B01; 0x243185BE; 0x550C7DC3;
    0x72BE5D74; 0x80DEB1FE; 0x9BDC06A7; 0xC19BF174;
    0xE49B69C1; 0xEFBE4786; 0x0FC19DC6; 0x240CA1CC;
    0x2DE92C6F; 0x4A7484AA; 0x5CB0A9DC; 0x76F988DA;
    0x983E5152; 0xA831C66D; 0xB00327C8; 0xBF597FC7;
    0xC6E00BF3; 0xD5A79147; 0x06CA6351; 0x14292967;
    0x27B70A85; 0x2E1B2138; 0x4D2C6DFC; 0x53380D13;
    0x650A7354; 0x766A0ABB; 0x81C2C92E; 0x92722C85;
    0xA2BFE8A1; 0xA81A664B; 0xC24B8B70; 0xC76C51A3;
    0xD192E819; 0xD6990624; 0xF40E3585; 0x106AA070;
    0x19A4C116; 0x1E376C08; 0x2748774C; 0x34B0BCB5;
    0x391C0CB3; 0x4ED8AA4A; 0x5B9CCA4F; 0x682E6FF3;
    0x748F82EE; 0x78A5636F; 0x84C87814; 0x8CC70208;
    0x90BEFFFA; 0xA4506CEB; 0xBEF9A3F7; 0xC67178F2 ].

(** The eight working variables, also the chaining value between blocks. *)
Record state : Type := mkState {
  sa : Z; sb : Z; sc : Z; sd : Z; se : Z; sf : Z; sg : Z; sh : Z
}.

Definition initial_state : state :=
  mkState 0x6A09E667 0xBB67AE85 0x3C6EF372 0xA54FF53A
          0x510E527F 0x9B05688C 0x1F83D9AB 0x5BE0CD19.

(** Padding: the byte 0x80, zero bytes up to 56 modulo 64, then the bit
    length of the message as a big-endian 64-bit number. *)
Definition be_bytes (width : nat) (x : Z) : list Z :=
  map (fun i => Z.land (Z.shiftr x (8 * Z.of_nat (width - 1 - i))) 255)
      (seq 0 width).

Definition pad (msg : list Z) : list Z :=
  let len := Z.of_nat (List.length msg) in
  let zeros := Z.to_nat ((55 - len) mod 64) in
  msg ++ [128] ++ repeat 0 zeros ++ be_bytes 8 (8 * len).

(** Big-endian 32-bit words of a byte sequence (a trailing group of fewer
    than four bytes does not occur after [pad]). *)
Fixpoint words_of_bytes (bs : list Z) : list Z :=
  match bs with
  | b0 :: b1 :: b2 :: b3 :: rest =>
      (Z.shiftl b0 24 + Z.shiftl b1 16 + Z.shiftl b2 8 + b3)
        :: words_of_bytes rest
  | _ => []
  end.

(** The message schedule, newest word first: [extend k ws] pushes [k] more
    words, each computed from the words 2, 7, 15 and 16 places back. *)
Fixpoint extend (k : nat) (rev_ws : list Z) : list Z :=
  match k with
  | O => rev_ws
  | S k' =>
      let w :=
        add32 (add32 (ssig1 (nth 1 rev_ws 0)) (nth 6 rev_ws 0))
              (add32 (ssig0 (nth 14 rev_ws 0)) (nth 15 rev_ws 0)) in
      extend k' (w :: rev_ws)
  end.

Definition schedule (block : list Z) : list Z :=
  rev (extend 48 (rev block)).

Definition round (s : state) (kw : Z * Z) : state :=
  let '(k, w) := kw in
  let t1 := add32 (add32 (add32 (sh s) (bsig1 (se s)))
                         (add32 (ch (se s) (sf s) (sg s)) k)) w in
  let t2 := add32 (bsig0 (sa s)) (maj (sa s) (sb s) (sc s)) in
  mkState (add32 t1 t2) (sa s) (sb s) (sc s)
          (add32 (sd s) t1) (se s) (sf s) (sg s).

Definition compress (s : state) (block : list Z) : state :=
  let r := fold_left round (combine round_constants (schedule block)) s in
  mkState (add32 (sa s) (sa r)) (add32 (sb s) (sb r))
          (add32 (sc s) (sc r)) (add32 (sd s) (sd r))
          (add32 (se s) (se r)) (add32 (sf s) (sf r))
          (add32 (sg s) (sg r)) (add32 (sh s) (sh r)).

(** Sixteen-word blocks; [fuel] bounds the number of blocks. *)
Fixpoint blocks (fuel : nat) (ws : list Z) : list (list Z) :=
  match fuel, ws with
  | S fuel', _ :: _ => firstn 16 ws :: blocks fuel' (skipn 16 ws)
  | _, _ => []
  end.

Definition digest (msg : list Z) : state :=
  let ws := words_of_bytes (pad msg) in
  fold_left compress (blocks (List.length ws) ws) initial_state.

(** [hexdigest()]: the eight words, most significant nibble first, in
    lowercase hexadecimal. *)
Definition hex_digit (d : Z) : ascii :=
  match d with
  | 0 => "0" | 1 => "1" | 2 => "2" | 3 => "3" | 4 => "4" | 5 => "5"
  | 6 => "6" | 7 => "7" | 8 => "8" | 9 => "9" | 10 => "a" | 11 => "b"
  | 12 => "c" | 13 => "d" | 14 => "e" | _ => "f"
  end%char.

Definition nibble (w : Z) (i : Z) : ascii :=
  hex_digit (Z.land (Z.shiftr w (4 * (7 - i))) 15).

Definition hex_word (w : Z) (rest : string) : string :=
  String (nibble w 0) (String (nibble w 1) (String (nibble w 2)
  (String (nibble w 3) (String (nibble w 4) (String (nibble w 5)
  (String (nibble w 6) (String (nibble w 7) rest))))))).

Definition hex_of_state (s : state) : string :=
  hex_word (sa s) (hex_word (sb s) (hex_word (sc s) (hex_word (sd s)
  (hex_word (se s) (hex_word (sf s) (hex_word (sg s) (hex_word (sh s)
  EmptyString))))))).

Definition hexdigest (msg : list Z) : string := hex_of_state (digest msg).

End SHA256.

(** [str.encode()]: the bytes of the text. *)
Fixpoint encode (s : string) : list Z :=
  match s with
  | EmptyString => []
  | String c rest => Z.of_N (N_of_ascii c) :: encode rest
  end.


(* ===================================================================== *)
(** ** The Python values the module works with *)
(* ===================================================================== *)

(** Exceptions. [__init__] and [get_proof] raise [ValueError] with the
    messages below; list indexing raises [IndexError]. *)
Inductive exn : Type :=
| ValueError (msg : string)
| IndexError (msg : string).

Inductive result (A : Type) : Type :=
| Ok (a : A)
| Raise (e : exn).
Arguments Ok {A} a.
Arguments Raise {A} e.

Definition bind {A B : Type} (r : result A) (k : A -> result B) : result B :=
  match r with
  | Ok a => k a
  | Raise e => Raise e
  end.

Notation "x <- r ;; k" := (bind r (fun x => k))
  (at level 61, r at next level, right associativity).

(** [str(n)] for an [int]. *)
Definition str_int (n : Z) : string := NilZero.string_of_int (Z.to_int n).

(** [lst[i]], a negative index counting from the end. *)
Definition getitem {A : Type} (l : list A) (i : Z) : result A :=
  let n := Z.of_nat (List.length l) in
  let j := if i <? 0 then i + n else i in
  match (if (0 <=? j) && (j <? n) then nth_error l (Z.to_nat j) else None) with
  | Some x => Ok x
  | None => Raise (IndexError "list index out of range")
  end.

(** [range(n)]. *)
Definition range (n : Z) : list Z := map Z.of_nat (seq 0 (Z.to_nat n)).

(** [f"{x:.4f}"] for a [float]: the exact value [m * 2^e] rounded to the
    nearest multiple of 1/10000, a tie going to the even one; the sign is
    kept also when the digits are all zero. *)
Definition round_half_even (num den : Z) : Z :=
  let q := num / den in
  let r := num mod den in
  if 2 * r <? den then q
  else if den <? 2 * r then q + 1
  else if Z.even q then q else q + 1.

Definition zero_pad4 (n : Z) : string :=
  let digits := str_int n in
  let missing := (4 - String.length digits)%nat in
  (string_of_list_ascii (repeat "0"%char missing) ++ digits)%string.

Definition format_4f (x : spec_float) : string :=
  match x with
  | S754_nan => "nan"
  | S754_infinity s => if s then "-inf" else "inf"
  | S754_zero s => if s then "-0.0000" else "0.0000"
  | S754_finite s m e =>
      let scaled :=
        if 0 <=? e then Z.pos m * 2 ^ e * 10000
        else round_half_even (Z.pos m * 10000) (2 ^ (- e)) in
      ((if s then "-" else "") ++
       str_int (scaled / 10000) ++ "." ++ zero_pad4 (scaled mod 10000))%string
  end.

(* ===================================================================== *)
(** ** class MerkleTree *)
(* ===================================================================== *)

(** [_hash]: [hashlib.sha256(data.encode()).hexdigest()]. *)
Definition _hash (data : string) : string := SHA256.hexdigest (encode data).

(** [_hash_pair]: concatenate and hash. *)
Definition _hash_pair (left right : string) : string :=
  let combined := (left ++ right)%string in
  _hash combined.

(** The [for i in range(0, len(current_level), 2)] loop of [_build_tree]:
    [left_] is [current_level[i]], [right_] is [current_level[i + 1]] when
    that index exists and [left_] otherwise; the parent is appended. *)
Fixpoint next_level (current_level : list string) : list string :=
  match current_level with
  | [] => []
  | [left_] => [_hash_pair left_ left_]
  | left_ :: right_ :: rest => _hash_pair left_ right_ :: next_level rest
  end.

(** The [while len(current_level) > 1] loop of [_build_tree]. *)
Equations? build_loop (tree : list (list string)) (current_level : list string)
  : list (list string) by wf (List.length current_level) lt :=
  build_loop tree [] := tree;
  build_loop tree [_] := tree;
  build_loop tree (h0 :: h1 :: rest) :=
    build_loop (tree ++ [next_level (h0 :: h1 :: rest)])
               (next_level (h0 :: h1 :: rest)).
Proof.
  simpl. apply -> Nat.succ_lt_mono.
  enough (Hle : forall l : list string,
            (List.length (next_level l) <= List.length l)%nat)
    by (specialize (Hle rest); lia).
  fix IH 1. intros [| a [| b l]]; simpl; [lia | lia |].
  specialize (IH l). lia.
Qed.

Definition _build_tree (hashes : list string) : list (list string) :=
  match hashes with
  | [] => []
  | _ :: _ => build_loop [hashes] hashes
  end.

(** The instance attributes set by [__init__]. *)
Record MerkleTree : Type := mkMerkleTree {
  leaves : list string;
  leaf_hashes : list string;
  tree : list (list string);
  root : option string
}.

Definition MerkleTree_init (leaves : list string) : result MerkleTree :=
  match leaves with
  | [] => Raise (ValueError "Cannot create Merkle tree with empty leaves")
  | _ :: _ =>
      let leaf_hashes := map _hash leaves in
      let tree := _build_tree leaf_hashes in
      root <- match tree with
              | [] => Ok None
              | _ :: _ =>
                  top <- getitem tree (-1) ;;
                  r <- getitem top 0 ;;
                  Ok (Some r)
              end ;;
      Ok (mkMerkleTree leaves leaf_hashes tree root)
  end.

Definition get_root (self : MerkleTree) : option string := root self.


(** The [if is_right: ... else: ...] statement of [get_proof]: the sibling
    entry of [current_index] in [current_level] is appended to [proof]. *)
Definition append_sibling (current_level : list string) (current_index : Z)
    (proof : list (string * string)) : result (list (string * string)) :=
  let is_right := current_index mod 2 =? 1 in
  if is_right then
    let sibling_index := current_index - 1 in
    h <- getitem current_level sibling_index ;;
    Ok (proof ++ [(h, "left")])
  else
    let sibling_index := current_index + 1 in
    if sibling_index <? Z.of_nat (List.length current_level) then
      h <- getitem current_level sibling_index ;;
      Ok (proof ++ [(h, "right")])
    else
      h <- getitem current_level current_index ;;
      Ok (proof ++ [(h, "right")]).

(** The [for level in range(len(self.tree) - 1)] loop of [get_proof], run
    over the remaining level numbers. *)
Fixpoint get_proof_loop (self_tree : list (list string)) (levels : list Z)
    (proof : list (string * string)) (current_index : Z)
  : result (list (string * string)) :=
  match levels with
  | [] => Ok proof
  | level :: levels' =>
      current_level <- getitem self_tree level ;;
      proof' <- append_sibling current_level current_index proof ;;
      get_proof_loop self_tree levels' proof' (current_index / 2)
  end.

Definition get_proof (self : MerkleTree) (leaf_index : Z)
  : result (list (string * string)) :=
  if (leaf_index <? 0)
     || (leaf_index >=? Z.of_nat (List.length (leaf_hashes self)))
  then Raise (ValueError ("Invalid leaf index: " ++ str_int leaf_index))
  else
    get_proof_loop (tree self)
      (range (Z.of_nat (List.length (tree self)) - 1)) [] leaf_index.

(** One proof element applied to the running hash in [verify_proof]. *)
Definition apply_proof_element (current_hash : string)
    (element : string * string) : string :=
  let '(sibling_hash, position) := element in
  if String.eqb position "left"
  then _hash_pair sibling_hash current_hash
  else _hash_pair current_hash sibling_hash.

(** [verify_proof]; the argument [root_] is the source's [root], whose
    default is [None]. *)
Definition verify_proof (self : MerkleTree) (leaf_data : string)
    (proof : list (string * string)) (root_ : option string) : bool :=
  let root_ := match root_ with
               | None => root self
               | Some r => Some r
               end in
  let current_hash := fold_left apply_proof_element proof (_hash leaf_data) in
  match root_ with
  | Some r => String.eqb current_hash r
  | None => false
  end.

Definition get_proof_hex (self : MerkleTree) (leaf_index : Z)
  : result (list string) :=
  proof <- get_proof self leaf_index ;;
  Ok (map fst proof).

(* ===================================================================== *)
(** ** The fraud-proof helpers *)
(* ===================================================================== *)

Definition create_fraud_proof (campaign_id : Z) (publisher_id : string)
    (impressions clicks : Z) (fraud_score : spec_float) (timestamp : Z)
  : result (option string * list string) :=
  let leaves :=
    [ ("campaign:" ++ str_int campaign_id)%string;
      ("publisher:" ++ publisher_id)%string;
      ("impressions:" ++ str_int impressions)%string;
      ("clicks:" ++ str_int clicks)%string;
      ("fraud_score:" ++ format_4f fraud_score)%string;
      ("timestamp:" ++ str_int timestamp)%string ] in
  tree <- MerkleTree_init leaves ;;
  proof <- get_proof_hex tree 4 ;;
  Ok (get_root tree, proof).

(** [enumerate(proof)]. *)
Definition enumerate {A : Type} (l : list A) : list (Z * A) :=
  combine (range (Z.of_nat (List.length l))) l.

(** The side tags rebuilt by [verify_fraud_proof]. *)
Definition proof_tuples (proof : list string) : list (string * string) :=
  map (fun '(i, hash_val) =>
         let position := if i mod 2 =? 0 then "left" else "right" in
         (hash_val, position))
      (enumerate proof).

Definition verify_fraud_proof (fraud_score_leaf : string)
    (proof : list string) (expected_root : string) : result bool :=
  let dummy_leaves := repeat "" (List.length proof + 1) in
  tree <- MerkleTree_init dummy_leaves ;;
  Ok (verify_proof tree fraud_score_leaf (proof_tuples proof)
        (Some expected_root)).


(** [to_dict]: the exported dictionary, one field per key. *)
Module TreeDict.
Record t : Type := mk {
  leaves : list string;
  leaf_hashes : list string;
  root : option string;
  tree_depth : Z;
  leaf_count : Z
}.
End TreeDict.

Definition to_dict (self : MerkleTree) : TreeDict.t :=
  TreeDict.mk (leaves self) (leaf_hashes self) (root self)
    (Z.of_nat (List.length (tree self)))
    (Z.of_nat (List.length (leaves self))).

(* ===================================================================== *)
(** ** [api/inference.py]: the parts of [InferenceService] that use no model *)
(* ===================================================================== *)

(** [x >= y] on floats: the comparison of [SpecFloat], false when either
    side is NaN. *)
Definition float_ge (x y : spec_float) : bool :=
  match SFcompare x y with
  | Some Gt | Some Eq => true
  | _ => false
  end.

(** The binary64 values of the literals 0.85, 0.90, 0.70, 0.80, 0.50. *)
Definition double_0_85 : spec_float := S754_finite false 7656119366529843 (-53).
Definition double_0_90 : spec_float := S754_finite false 8106479329266893 (-53).
Definition double_0_70 : spec_float := S754_finite false 6305039478318694 (-53).
Definition double_0_80 : spec_float := S754_finite false 7205759403792794 (-53).
Definition double_0_50 : spec_float := S754_finite false 4503599627370496 (-53).

Definition _calculate_risk_level (fraud_score confidence : spec_float)
  : string :=
  if float_ge fraud_score double_0_85 && float_ge confidence double_0_90
  then "critical"
  else if float_ge fraud_score double_0_70 && float_ge confidence double_0_80
  then "high"
  else if float_ge fraud_score double_0_50 && float_ge confidence double_0_70
  then "medium"
  else "low".

(** The values [_generate_merkle_proof] reads from [data]: an [int] or a
    [str], as the request model declares the four fields it uses. *)
Inductive field_value : Type :=
| IntValue (n : Z)
| StrValue (s : string).

(** [f"{v}"]. *)
Definition format_value (v : field_value) : string :=
  match v with
  | IntValue n => str_int n
  | StrValue s => s
  end.

(** Exceptions of the service layer: a missing dictionary key, or one
    raised by [MerkleTree]. *)
Inductive service_exn : Type :=
| KeyError (key : string)
| TreeError (e : exn).

Inductive outcome (A : Type) : Type :=
| Returns (a : A)
| Raises (e : service_exn).
Arguments Returns {A} a.
Arguments Raises {A} e.

Definition and_then {A B : Type} (r : outcome A) (k : A -> outcome B)
  : outcome B :=
  match r with
  | Returns a => k a
  | Raises e => Raises e
  end.

(** A [dict] with [str] keys, as the list of its items; [data[key]]. *)
Fixpoint dict_getitem (data : list (string * field_value)) (key : string)
  : outcome field_value :=
  match data with
  | [] => Raises (KeyError key)
  | (k, v) :: rest =>
      if String.eqb k key then Returns v else dict_getitem rest key
  end.

Definition _generate_merkle_proof (data : list (string * field_value))
    (fraud_score : spec_float) : outcome (option string) :=
  and_then (dict_getitem data "campaign_id") (fun campaign_id =>
  and_then (dict_getitem data "publisher_id") (fun publisher_id =>
  and_then (dict_getitem data "impressions") (fun impressions =>
  and_then (dict_getitem data "clicks") (fun clicks =>
  let leaves :=
    [ ("campaign_id:" ++ format_value campaign_id)%string;
      ("publisher_id:" ++ format_value publisher_id)%string;
      ("impressions:" ++ format_value impressions)%string;
      ("clicks:" ++ format_value clicks)%string;
      ("fraud_score:" ++ format_4f fraud_score)%string ] in
  match MerkleTree_init leaves with
  | Ok tree => Returns (get_root tree)
  | Raise e => Raises (TreeError e)
  end)))).

(* ===================================================================== *)
(** ** What the specification calls things *)
(* ===================================================================== *)

(** [InvalidInput]: the error of [__init__] on an empty leaf list. *)
Definition InvalidInput : exn :=
  ValueError "Cannot create Merkle tree with empty leaves".

(** [OutOfRange]: the error of [get_proof] on a bad index. *)
Definition OutOfRange (leaf_index : Z) : exn :=
  ValueError ("Invalid leaf index: " ++ str_int leaf_index).

(** A 64-character lowercase hexadecimal string. *)
Definition is_hex_char (c : ascii) : bool :=
  let n := N_of_ascii c in
  ((48 <=? n) && (n <=? 57) || (97 <=? n) && (n <=? 102))%N.

Fixpoint all_hex (s : string) : bool :=
  match s with
  | EmptyString => true
  | String c rest => is_hex_char c && all_hex rest
  end.

Definition is_digest (s : string) : bool :=
  (String.length s =? 64)%nat && all_hex s.

(** [ceil(n / 2)]. *)
Definition ceil_half (n : nat) : nat := Nat.div2 (S n).

(** The entry [get_proof] records for position [i] of a level. *)
Definition sibling_entry (lvl : list string) (i : nat) : string * string :=
  if Nat.odd i then (nth (i - 1) lvl "", "left")
  else if (S i <? List.length lvl)%nat then (nth (S i) lvl "", "right")
  else (nth i lvl "", "right").

(** A well-formed list of levels: each level but the last has at least two
    nodes and is followed by its [next_level]; the last has exactly one. *)
Inductive chain : list (list string) -> Prop :=
| chain_top (l : list string) :
    List.length l = 1%nat -> chain [l]
| chain_step (l : list string) (rest : list (list string)) :
    (1 < List.length l)%nat ->
    chain (next_level l :: rest) ->
    chain (l :: next_level l :: rest).

(** The side [get_proof] records at position [i]: the sibling is on the
    left exactly when [i] is odd. *)
Definition side_of (i : nat) : string :=
  if Nat.odd i then "left" else "right".

(** The entries of the path from position [i] of the first level up to
    the level below the last. *)
Fixpoint path_entries (levels : list (list string)) (i : nat)
  : list (string * string) :=
  match levels with
  | [] => []
  | lvl :: upper =>
      match upper with
      | [] => []
      | _ :: _ => sibling_entry lvl i :: path_entries upper (Nat.div2 i)
      end
  end.

(** The side tags [verify_fraud_proof] assumes: left, right, left, ... *)
Definition assumed_side (k : nat) : string :=
  if Nat.even k then "left" else "right".

(** The order of the risk levels. *)
Definition risk_rank (level : string) : nat :=
  if String.eqb level "critical" then 3
  else if String.eqb level "high" then 2
  else if String.eqb level "medium" then 1
  else 0.

(** The decoded binary form of a lowercase hexadecimal digest
    ([bytes.fromhex]), which the pair hash does not use. *)
Definition hex_value (c : ascii) : Z :=
  let n := Z.of_N (N_of_ascii c) in
  if n <? 58 then n - 48 else n - 87.

Fixpoint bytes_fromhex (s : string) : list Z :=
  match s with
  | String hi (String lo rest) =>
      (16 * hex_value hi + hex_value lo) :: bytes_fromhex rest
  | _ => []
  end.

(** The double 0.8734 of the specification's end-to-end scenario:
    7866887829090782 * 2^-53. *)
Definition score_0_8734 : spec_float :=
  S754_finite false 7866887829090782 (-53).

(** [_build_tree] on a list of known length, unfolded level by level. *)
Ltac run_build_tree :=
  unfold _build_tree;
  repeat (rewrite build_loop_equation_3; cbn [next_level app]);
  rewrite build_loop_equation_2.

(** Case analysis on every comparison of exponents and mantissas in the
    goal. *)
Ltac compare_cases :=
  repeat match goal with
         | |- context [Z.compare ?a ?b] => destruct (Z.compare_spec a b)
         | |- context [Pos.compare_cont Eq ?a ?b] =>
             change (Pos.compare_cont Eq a b) with (Pos.compare a b);
             destruct (Pos.compare_spec a b)
         end.

(* ===================================================================== *)
(** ** Known answers *)
(* ===================================================================== *)

Example sha_empty :
  SHA256.hexdigest (encode "")
  = "e3b0c44298fc1c149afbf4c8996fb92427ae41e4649b934ca495991b7852b855".
Proof. vm_compute. reflexivity. Qed.

Example sha_abc :
  _hash "abc"
  = "ba7816bf8f01cfea414140de5dae2223b00361a396177a9cb410ff61f20015ad".
Proof. vm_compute. reflexivity. Qed.

Example sha_two_blocks :
  _hash "aaaaaaaaaaaaaaaaaaaaaaaaaaaaaaaaaaaaaaaaaaaaaaaaaaaaaaaaaaaaaaaa"
  = "ffe054fe7ae0cb6dc65c3af9b61d5209f439851db43d0ba5997337df154668eb".
Proof. vm_compute. reflexivity. Qed.

Example format_4f_scenario : format_4f score_0_8734 = "0.8734".
Proof. reflexivity. Qed.

Example format_4f_tie_to_even :
  format_4f (S754_finite false 1 (-5)) = "0.0312"
  /\ format_4f (S754_finite false 3 (-5)) = "0.0938".
Proof. split; reflexivity. Qed.

Example format_4f_negative_zero_digits :
  format_4f (S754_finite true 5902958103587057 (-69)) = "-0.0000".
Proof. reflexivity. Qed.

(* ===================================================================== *)
(** ** Lists, indices and the error monad *)
(* ===================================================================== *)

Arguments _hash : simpl never.
Arguments _hash_pair : simpl never.

Lemma list_pair_ind (A : Type) (P : list A -> Prop) :
  P [] -> (forall a, P [a]) -> (forall a b l, P l -> P (a :: b :: l)) ->
  forall l, P l.
Proof.
  intros Hnil Hone Hstep.
  fix IH 1. intros [| a [| b l]].
  - exact Hnil.
  - apply Hone.
  - apply Hstep, IH.
Qed.

Lemma getitem_nat (A : Type) (l : list A) (i : nat) (x : A) :
  nth_error l i = Some x -> getitem l (Z.of_nat i) = Ok x.
Proof.
  intros Hnth. unfold getitem.
  assert (Hlt : (i < List.length l)%nat)
    by (apply nth_error_Some; congruence).
  destruct (Z.ltb_spec (Z.of_nat i) 0) as [Hneg | _]; [lia |].
  destruct (Z.leb_spec 0 (Z.of_nat i)) as [_ | Hneg]; [| lia].
  destruct (Z.ltb_spec (Z.of_nat i) (Z.of_nat (List.length l))) as [_ | Hge];
    [| lia].
  simpl. rewrite Nat2Z.id, Hnth. reflexivity.
Qed.

Lemma getitem_in_range (l : list string) (i : Z) :
  0 <= i < Z.of_nat (List.length l) ->
  getitem l i = Ok (nth (Z.to_nat i) l "").
Proof.
  intros Hi. rewrite <- (Z2Nat.id i) at 1 by lia.
  apply getitem_nat, nth_error_nth'. lia.
Qed.

Lemma getitem_last (A : Type) (l : list A) (d : A) :
  l <> [] -> getitem l (-1) = Ok (last l d).
Proof.
  intros Hne. destruct (exists_last Hne) as [l' [a ->]].
  rewrite last_last. unfold getitem.
  rewrite length_app. simpl List.length.
  change (-1 <? 0) with true. cbv iota.
  destruct (Z.leb_spec 0 (-1 + Z.of_nat (List.length l' + 1))) as [_ | Hneg];
    [| lia].
  destruct (Z.ltb_spec (-1 + Z.of_nat (List.length l' + 1))
              (Z.of_nat (List.length l' + 1))) as [_ | Hge]; [| lia].
  simpl andb. cbv iota.
  replace (Z.to_nat (-1 + Z.of_nat (List.length l' + 1)))
    with (List.length l') by lia.
  rewrite nth_error_app2, Nat.sub_diag by lia.
  reflexivity.
Qed.

Lemma range_seq (n : nat) : range (Z.of_nat n) = map Z.of_nat (seq 0 n).
Proof. unfold range. now rewrite Nat2Z.id. Qed.

Lemma parity_split (i : nat) :
  Z.of_nat i = 2 * Z.of_nat (Nat.div2 i) + (if Nat.odd i then 1 else 0).
Proof.
  pose proof (Nat.div2_odd i) as H.
  destruct (Nat.odd i); simpl Nat.b2n in H; lia.
Qed.

Lemma odd_of_nat (i : nat) : (Z.of_nat i mod 2 =? 1) = Nat.odd i.
Proof.
  pose proof (parity_split i) as H.
  destruct (Nat.odd i);
    [apply Z.eqb_eq | apply Z.eqb_neq];
    Z.div_mod_to_equations; lia.
Qed.

Lemma half_of_nat (i : nat) : Z.of_nat i / 2 = Z.of_nat (Nat.div2 i).
Proof.
  pose proof (parity_split i) as H.
  destruct (Nat.odd i); Z.div_mod_to_equations; lia.
Qed.

(* ===================================================================== *)
(** ** Digests are 64 lowercase hexadecimal characters *)
(* ===================================================================== *)

Lemma hex_digit_is_hex (d : Z) : is_hex_char (SHA256.hex_digit d) = true.
Proof.
  destruct d as [| p | p]; [reflexivity | | reflexivity].
  do 5 (try destruct p as [p | p |]; try reflexivity).
Qed.

Lemma hex_word_is_hex (w : Z) (rest : string) :
  all_hex (SHA256.hex_word w rest) = all_hex rest.
Proof.
  unfold SHA256.hex_word, SHA256.nibble. cbn [all_hex].
  now rewrite !hex_digit_is_hex.
Qed.

Lemma hex_word_length (w : Z) (rest : string) :
  String.length (SHA256.hex_word w rest) = (8 + String.length rest)%nat.
Proof. reflexivity. Qed.

Lemma hexdigest_is_digest (msg : list Z) :
  is_digest (SHA256.hexdigest msg) = true.
Proof.
  unfold SHA256.hexdigest, SHA256.hex_of_state, is_digest.
  rewrite !hex_word_is_hex, !hex_word_length. reflexivity.
Qed.

Lemma hash_is_digest (data : string) : is_digest (_hash data) = true.
Proof. apply hexdigest_is_digest. Qed.

(* ===================================================================== *)
(** ** One level of the tree *)
(* ===================================================================== *)

Lemma next_level_length (l : list string) :
  List.length (next_level l) = ceil_half (List.length l).
Proof.
  induction l as [| a | a b l IH] using list_pair_ind; try reflexivity.
  simpl. now rewrite IH.
Qed.

Lemma div2_lt_ceil_half (i n : nat) :
  (i < n)%nat -> (Nat.div2 i < ceil_half n)%nat.
Proof.
  intros Hi. unfold ceil_half.
  pose proof (Nat.div2_odd (S n)) as Hn.
  pose proof (Nat.div2_odd i) as Hi2.
  destruct (Nat.odd (S n)), (Nat.odd i); simpl Nat.b2n in *; lia.
Qed.

(** The parent of position [i] is the pair hash that [verify_proof]
    computes from the node and its [sibling_entry]. *)
Lemma next_level_parent (l : list string) :
  forall i : nat, (i < List.length l)%nat ->
  nth_error (next_level l) (Nat.div2 i)
  = Some (apply_proof_element (nth i l "") (sibling_entry l i)).
Proof.
  induction l as [| a | a b l IH] using list_pair_ind; intros i Hi.
  - simpl in Hi. lia.
  - simpl in Hi. assert (i = 0%nat) as -> by lia. reflexivity.
  - destruct i as [| [| i]]; try reflexivity.
    simpl in Hi.
    change (Nat.div2 (S (S i))) with (S (Nat.div2 i)).
    change (next_level (a :: b :: l))
      with (_hash_pair a b :: next_level l).
    change (nth_error (_hash_pair a b :: next_level l) (S (Nat.div2 i)))
      with (nth_error (next_level l) (Nat.div2 i)).
    rewrite IH by lia. f_equal.
    change (nth (S (S i)) (a :: b :: l) "") with (nth i l "").
    f_equal. unfold sibling_entry.
    rewrite Nat.odd_succ_succ.
    change (List.length (a :: b :: l)) with (S (S (List.length l))).
    change (S (S (S i)) <? S (S (List.length l)))%nat
      with (S i <? List.length l)%nat.
    destruct (Nat.odd i) eqn:Hodd.
    + destruct i as [| i]; [discriminate |].
      simpl. now rewrite Nat.sub_0_r.
    + reflexivity.
Qed.

(** In range, the loop body of [get_proof] raises nothing and appends the
    [sibling_entry]. *)
Lemma append_sibling_ok (lvl : list string) (i : nat)
    (proof : list (string * string)) :
  (i < List.length lvl)%nat ->
  append_sibling lvl (Z.of_nat i) proof = Ok (proof ++ [sibling_entry lvl i]).
Proof.
  intros Hi. unfold append_sibling, sibling_entry.
  rewrite odd_of_nat.
  destruct (Nat.odd i) eqn:Hodd.
  - destruct i as [| i]; [discriminate |].
    replace (Z.of_nat (S i) - 1) with (Z.of_nat i) by lia.
    rewrite (getitem_nat _ lvl i (nth i lvl ""))
      by (apply nth_error_nth'; lia).
    simpl. now rewrite Nat.sub_0_r.
  - replace (Z.of_nat i + 1) with (Z.of_nat (S i)) by lia.
    destruct (Nat.ltb_spec (S i) (List.length lvl)) as [Hlt | Hge].
    + destruct (Z.ltb_spec (Z.of_nat (S i)) (Z.of_nat (List.length lvl)))
        as [_ | Hge]; [| lia].
      rewrite (getitem_nat _ lvl (S i) (nth (S i) lvl ""))
        by (apply nth_error_nth'; lia).
      reflexivity.
    + destruct (Z.ltb_spec (Z.of_nat (S i)) (Z.of_nat (List.length lvl)))
        as [Hlt | _]; [lia |].
      rewrite (getitem_nat _ lvl i (nth i lvl ""))
        by (apply nth_error_nth'; lia).
      reflexivity.
Qed.

(* ===================================================================== *)
(** ** The levels built by [_build_tree] *)
(* ===================================================================== *)

Lemma chain_last (t : list (list string)) :
  chain t -> exists r : string, last t [] = [r].
Proof.
  induction 1 as [l Hl | l rest Hl Hrest IH].
  - destruct l as [| r [| ? ?]]; try discriminate. now exists r.
  - exact IH.
Qed.

(** The loop returns what it was given followed by a chain of levels; in
    particular it returns. *)
Lemma build_loop_chain (tree0 : list (list string)) (current_level : list string) :
  current_level <> [] ->
  exists rest : list (list string),
    build_loop tree0 current_level = tree0 ++ rest
    /\ chain (current_level :: rest).
Proof.
  funelim (build_loop tree0 current_level); intros Hne.
  - congruence.
  - exists []. rewrite app_nil_r. split; [reflexivity |].
    now apply chain_top.
  - destruct H as [rest' [Heq Hchain]]; [discriminate |].
    exists (next_level (h0 :: h1 :: rest) :: rest'). split.
    + rewrite Heq, <- app_assoc. reflexivity.
    + apply chain_step; [simpl; lia | exact Hchain].
Qed.

Lemma build_tree_chain (hashes : list string) :
  hashes <> [] ->
  exists rest : list (list string),
    _build_tree hashes = hashes :: rest /\ chain (hashes :: rest).
Proof.
  intros Hne. unfold _build_tree.
  destruct hashes as [| h hs]; [congruence |].
  destruct (build_loop_chain [h :: hs] (h :: hs) Hne) as [rest [Heq Hchain]].
  exists rest. now split.
Qed.

(** [__init__] on a non-empty list: the attributes it sets. *)
Lemma init_nonempty (lvs : list string) :
  lvs <> [] ->
  exists (rest : list (list string)) (r : string),
    MerkleTree_init lvs
    = Ok (mkMerkleTree lvs (map _hash lvs) (map _hash lvs :: rest) (Some r))
    /\ chain (map _hash lvs :: rest)
    /\ last (map _hash lvs :: rest) [] = [r].
Proof.
  intros Hne.
  assert (Hhs : map _hash lvs <> [])
    by (destruct lvs; [congruence | discriminate]).
  destruct (build_tree_chain _ Hhs) as [rest [Heq Hchain]].
  destruct (chain_last _ Hchain) as [r Hr].
  exists rest, r. split; [| now split].
  unfold MerkleTree_init.
  destruct lvs as [| x xs]; [congruence |].
  rewrite Heq.
  rewrite (getitem_last _ _ []) by discriminate.
  rewrite Hr. reflexivity.
Qed.

(* ===================================================================== *)
(** ** The walk of [get_proof] along a chain of levels *)
(* ===================================================================== *)

(** Loop invariant of [get_proof]: when the proof collected so far takes
    the leaf hash [h0] to node [i] of the current level, the loop finishes
    without an exception, with one more entry per remaining level, and its
    result takes [h0] to the single node of the last level. *)
Lemma get_proof_loop_chain (suf : list (list string)) :
  chain suf ->
  forall (pre : list (list string)) (proof : list (string * string))
         (i : nat) (h0 : string),
    (i < List.length (hd [] suf))%nat ->
    fold_left apply_proof_element proof h0 = nth i (hd [] suf) "" ->
    exists proof' : list (string * string),
      get_proof_loop (pre ++ suf)
        (map Z.of_nat (seq (List.length pre) (List.length suf - 1)))
        proof (Z.of_nat i) = Ok proof'
      /\ last suf [] = [fold_left apply_proof_element proof' h0]
      /\ List.length proof'
         = (List.length proof + (List.length suf - 1))%nat.
Proof.
  induction 1 as [l Hl | l rest Hl Hrest IH]; intros pre proof i h0 Hi Hfold.
  - exists proof. simpl in *.
    destruct l as [| x [| ? ?]]; try discriminate.
    simpl in Hi. assert (i = 0%nat) as -> by lia.
    simpl in Hfold. rewrite Hfold. repeat split. lia.
  - simpl hd in *.
    replace (List.length (l :: next_level l :: rest) - 1)%nat
      with (S (List.length (next_level l :: rest) - 1)) by (simpl; lia).
    cbn [seq map get_proof_loop].
    rewrite (getitem_nat _ _ _ l)
      by (rewrite nth_error_app2, Nat.sub_diag by lia; reflexivity).
    cbn [bind]. rewrite append_sibling_ok by exact Hi. cbn [bind].
    rewrite half_of_nat.
    destruct (IH (pre ++ [l]) (proof ++ [sibling_entry l i])
                (Nat.div2 i) h0) as [proof' [Hrun [Hlast Hlen]]].
    + simpl hd. rewrite next_level_length.
      now apply div2_lt_ceil_half.
    + simpl hd. rewrite fold_left_app. simpl fold_left. rewrite Hfold.
      symmetry. apply nth_error_nth. now apply next_level_parent.
    + exists proof'.
      rewrite <- app_assoc, length_app in Hrun. simpl in Hrun.
      rewrite Nat.add_1_r in Hrun.
      split; [exact Hrun | split].
      * exact Hlast.
      * rewrite Hlen, length_app. simpl. lia.
Qed.

(** [get_proof] on a constructed tree and an index in range. *)
Lemma get_proof_in_range (lvs : list string) (rest : list (list string))
    (r : string) (i : nat) :
  chain (map _hash lvs :: rest) ->
  last (map _hash lvs :: rest) [] = [r] ->
  (i < List.length lvs)%nat ->
  exists proof : list (string * string),
    get_proof (mkMerkleTree lvs (map _hash lvs) (map _hash lvs :: rest)
                 (Some r)) (Z.of_nat i) = Ok proof
    /\ fold_left apply_proof_element proof (_hash (nth i lvs "")) = r
    /\ List.length proof = List.length rest.
Proof.
  intros Hchain Hlast Hi.
  destruct (get_proof_loop_chain _ Hchain [] [] i (_hash (nth i lvs "")))
    as [proof [Hrun [Hl Hlen]]].
  - simpl. now rewrite length_map.
  - simpl.
    rewrite (nth_indep (map _hash lvs) "" (_hash ""))
      by now rewrite length_map.
    now rewrite map_nth.
  - exists proof. simpl in Hrun, Hlen. rewrite Nat.sub_0_r in Hrun, Hlen.
    unfold get_proof. simpl leaf_hashes. simpl tree.
    rewrite length_map.
    destruct (Z.ltb_spec (Z.of_nat i) 0) as [Hneg | _]; [exfalso; lia |].
    destruct (Z.geb_spec (Z.of_nat i) (Z.of_nat (List.length lvs)))
      as [Hge | _]; [exfalso; lia |].
    simpl orb. cbv iota.
    replace (Z.of_nat (List.length (map _hash lvs :: rest)) - 1)
      with (Z.of_nat (List.length rest))
      by (cbn [List.length]; lia).
    rewrite range_seq. split; [exact Hrun | split; [| exact Hlen]].
    rewrite Hlast in Hl. congruence.
Qed.

Lemma chain_adjacent (t : list (list string)) :
  chain t ->
  forall (k : nat) (lo hi : list string),
    nth_error t k = Some lo -> nth_error t (S k) = Some hi ->
    (1 < List.length lo)%nat /\ hi = next_level lo.
Proof.
  induction 1 as [l Hl | l rest Hl Hrest IH]; intros k lo hi Hlo Hhi.
  - destruct k; discriminate.
  - destruct k as [| k].
    + simpl in Hlo, Hhi. split; congruence.
    + apply (IH k); assumption.
Qed.

Lemma next_level_last_odd (l : list string) :
  Nat.odd (List.length l) = true ->
  last (next_level l) "" = _hash_pair (last l "") (last l "").
Proof.
  induction l as [| a | a b l IH] using list_pair_ind; intros Hodd.
  - discriminate.
  - reflexivity.
  - change (List.length (a :: b :: l)) with (S (S (List.length l))) in Hodd.
    rewrite Nat.odd_succ_succ in Hodd.
    destruct l as [| c l]; [discriminate |].
    specialize (IH Hodd).
    change (last (a :: b :: c :: l) "") with (last (c :: l) "").
    rewrite <- IH.
    destruct l as [| d l]; reflexivity.
Qed.

(* ===================================================================== *)
(** ** The claims *)
(* ===================================================================== *)

(** C1. For every non-empty list of leaves and every index [i] with
    [0 <= i < len(leaves)], construction succeeds, [get_proof(i)] returns a
    proof, and [verify_proof(leaves[i], get_proof(i), get_root())] is
    [True]. *)
Theorem C1_proof_roundtrip (lvs : list string) (i : Z) :
  lvs <> [] ->
  0 <= i < Z.of_nat (List.length lvs) ->
  exists (t : MerkleTree) (leaf : string) (proof : list (string * string)),
    MerkleTree_init lvs = Ok t
    /\ getitem lvs i = Ok leaf
    /\ get_proof t i = Ok proof
    /\ verify_proof t leaf proof (get_root t) = true.
Proof.
  intros Hne Hi.
  destruct (init_nonempty lvs Hne) as [rest [r [Hinit [Hchain Hlast]]]].
  destruct (get_proof_in_range lvs rest r (Z.to_nat i) Hchain Hlast)
    as [proof [Hproof [Hfold _]]]; [lia |].
  rewrite Z2Nat.id in Hproof by lia.
  eexists _, (nth (Z.to_nat i) lvs ""), proof.
  split; [exact Hinit | split; [| split; [exact Hproof |]]].
  - now apply getitem_in_range.
  - unfold verify_proof, get_root. simpl root.
    rewrite Hfold. apply String.eqb_refl.
Qed.

Lemma C1_proof_roundtrip_witness :
  exists (t : MerkleTree) (leaf : string) (proof : list (string * string)),
    MerkleTree_init ["a"; "b"; "c"; "d"; "e"] = Ok t
    /\ getitem ["a"; "b"; "c"; "d"; "e"] 4 = Ok leaf
    /\ get_proof t 4 = Ok proof
    /\ verify_proof t leaf proof (get_root t) = true.
Proof.
  apply (C1_proof_roundtrip ["a"; "b"; "c"; "d"; "e"] 4).
  - discriminate.
  - simpl. lia.
Defined.

(** C8. On the tree built from [n] leaves, [get_proof(index)] raises the
    out-of-range [ValueError] if and only if [index < 0] or [index >= n];
    for every index in [[0, n)] it returns a proof. *)
Theorem C8_get_proof_range (lvs : list string) :
  lvs <> [] ->
  exists t : MerkleTree,
    MerkleTree_init lvs = Ok t
    /\ forall index : Z,
         (get_proof t index = Raise (OutOfRange index)
          <-> index < 0 \/ index >= Z.of_nat (List.length lvs))
         /\ (0 <= index < Z.of_nat (List.length lvs) ->
             exists proof : list (string * string),
               get_proof t index = Ok proof).
Proof.
  intros Hne.
  destruct (init_nonempty lvs Hne) as [rest [r [Hinit [Hchain Hlast]]]].
  eexists. split; [exact Hinit |]. intros index.
  assert (Hin : 0 <= index < Z.of_nat (List.length lvs) ->
                exists proof, get_proof
                  (mkMerkleTree lvs (map _hash lvs) (map _hash lvs :: rest)
                     (Some r)) index = Ok proof).
  { intros Hi.
    destruct (get_proof_in_range lvs rest r (Z.to_nat index) Hchain Hlast)
      as [proof [Hproof _]]; [lia |].
    rewrite Z2Nat.id in Hproof by lia. now exists proof. }
  split; [split |]; [| | exact Hin].
  - intros Hraise.
    destruct (Z.ltb_spec index 0) as [Hneg | Hnn]; [now left |].
    destruct (Z.geb_spec index (Z.of_nat (List.length lvs))) as [Hge | Hlt];
      [right; lia |].
    destruct Hin as [proof Hproof]; [lia |]. congruence.
  - intros Hout. unfold get_proof, OutOfRange. simpl leaf_hashes.
    rewrite length_map.
    destruct (Z.ltb_spec index 0) as [Hneg | Hnn]; [reflexivity |].
    destruct (Z.geb_spec index (Z.of_nat (List.length lvs))) as [Hge | Hlt];
      [reflexivity | exfalso; lia].
Qed.

Lemma C8_get_proof_range_witness :
  exists t : MerkleTree,
    MerkleTree_init ["a"; "b"; "c"] = Ok t
    /\ forall index : Z,
         (get_proof t index = Raise (OutOfRange index)
          <-> index < 0 \/ index >= 3)
         /\ (0 <= index < 3 ->
             exists proof : list (string * string),
               get_proof t index = Ok proof).
Proof.
  apply (C8_get_proof_range ["a"; "b"; "c"]). discriminate.
Defined.

(** C9. Construction raises the empty-leaves [ValueError] if and only if
    the leaf list is empty; for every non-empty leaf list it succeeds and
    the tree has a root. *)
Theorem C9_init_empty_iff (lvs : list string) :
  (MerkleTree_init lvs = Raise InvalidInput <-> lvs = [])
  /\ (lvs <> [] ->
      exists (t : MerkleTree) (r : string),
        MerkleTree_init lvs = Ok t /\ get_root t = Some r).
Proof.
  split; [split |].
  - intros Hraise. destruct lvs as [| x xs]; [reflexivity |].
    destruct (init_nonempty (x :: xs)) as [rest [r [Hinit _]]];
      [discriminate | congruence].
  - intros ->. reflexivity.
  - intros Hne.
    destruct (init_nonempty lvs Hne) as [rest [r [Hinit _]]].
    eexists _, r. split; [exact Hinit | reflexivity].
Qed.

Lemma C9_init_empty_iff_witness :
  MerkleTree_init [] = Raise InvalidInput
  /\ exists (t : MerkleTree) (r : string),
       MerkleTree_init ["x"] = Ok t /\ get_root t = Some r.
Proof.
  split.
  - apply (proj1 (C9_init_empty_iff [])). reflexivity.
  - apply (proj2 (C9_init_empty_iff ["x"])). discriminate.
Defined.

(** C6. For every non-empty leaf list, construction returns, level 0 holds
    the leaf hashes, and for every pair of consecutive levels [lo], [hi]:
    [lo] has more than one node (the loop has not stopped before), [hi] is
    the pairing of [lo], [len(hi) = ceil(len(lo) / 2)], and when [len(lo)]
    is odd the last node of [hi] is the pair hash of the last node of [lo]
    with itself.  The last level has exactly one node, the root. *)
Theorem C6_levels_invariant (lvs : list string) :
  lvs <> [] ->
  exists (t : MerkleTree) (r : string),
    MerkleTree_init lvs = Ok t
    /\ nth_error (tree t) 0 = Some (map _hash lvs)
    /\ (forall (k : nat) (lo hi : list string),
          nth_error (tree t) k = Some lo ->
          nth_error (tree t) (S k) = Some hi ->
          (1 < List.length lo)%nat
          /\ hi = next_level lo
          /\ (List.length lo <= 2 * List.length hi <= List.length lo + 1)%nat
          /\ (Nat.odd (List.length lo) = true ->
              last hi "" = _hash_pair (last lo "") (last lo "")))
    /\ last (tree t) [] = [r]
    /\ get_root t = Some r.
Proof.
  intros Hne.
  destruct (init_nonempty lvs Hne) as [rest [r [Hinit [Hchain Hlast]]]].
  eexists _, r. split; [exact Hinit |].
  simpl tree. unfold get_root. simpl root.
  split; [reflexivity | split; [| now split]].
  intros k lo hi Hlo Hhi.
  destruct (chain_adjacent _ Hchain k lo hi Hlo Hhi) as [Hlen ->].
  split; [exact Hlen | split; [reflexivity | split]].
  - rewrite next_level_length. unfold ceil_half.
    pose proof (Nat.div2_odd (S (List.length lo))) as H.
    destruct (Nat.odd (S (List.length lo))); simpl Nat.b2n in H; lia.
  - apply next_level_last_odd.
Qed.

Lemma C6_levels_invariant_witness :
  exists (t : MerkleTree) (r : string),
    MerkleTree_init ["a"; "b"; "c"; "d"; "e"] = Ok t
    /\ nth_error (tree t) 0 = Some (map _hash ["a"; "b"; "c"; "d"; "e"])
    /\ (forall (k : nat) (lo hi : list string),
          nth_error (tree t) k = Some lo ->
          nth_error (tree t) (S k) = Some hi ->
          (1 < List.length lo)%nat
          /\ hi = next_level lo
          /\ (List.length lo <= 2 * List.length hi <= List.length lo + 1)%nat
          /\ (Nat.odd (List.length lo) = true ->
              last hi "" = _hash_pair (last lo "") (last lo "")))
    /\ last (tree t) [] = [r]
    /\ get_root t = Some r.
Proof.
  apply (C6_levels_invariant ["a"; "b"; "c"; "d"; "e"]). discriminate.
Defined.

(** What [verify_fraud_proof] returns on byte-string arguments: the
    boolean that compares the expected root with the leaf hash folded
    through the proof hashes tagged left, right, left, ... *)
Lemma verify_fraud_proof_value (fraud_score_leaf : string)
    (proof : list string) (expected_root : string) :
  verify_fraud_proof fraud_score_leaf proof expected_root
  = Ok (String.eqb
          (fold_left apply_proof_element (proof_tuples proof)
             (_hash fraud_score_leaf))
          expected_root).
Proof.
  unfold verify_fraud_proof.
  destruct (init_nonempty (repeat "" (List.length proof + 1)))
    as [rest [r [Hinit _]]].
  - rewrite Nat.add_1_r. discriminate.
  - rewrite Hinit. reflexivity.
Qed.

(** C10. The result of [verify_fraud_proof] is the result of [verify_proof]
    with the explicit root on the tree built from any [len(proof) + 1]
    leaves whatever their content, and [verify_proof] with an explicit
    root returns the same on any two tree instances. *)
Theorem C10_scratch_tree_irrelevant (fraud_score_leaf : string)
    (proof : list string) (expected_root : string) :
  (forall dummy_leaves : list string,
     List.length dummy_leaves = (List.length proof + 1)%nat ->
     exists t : MerkleTree,
       MerkleTree_init dummy_leaves = Ok t
       /\ verify_fraud_proof fraud_score_leaf proof expected_root
          = Ok (verify_proof t fraud_score_leaf (proof_tuples proof)
                  (Some expected_root)))
  /\ (forall (t1 t2 : MerkleTree) (tuples : list (string * string)),
        verify_proof t1 fraud_score_leaf tuples (Some expected_root)
        = verify_proof t2 fraud_score_leaf tuples (Some expected_root)).
Proof.
  split; [| reflexivity].
  intros dummy_leaves Hlen.
  destruct (init_nonempty dummy_leaves) as [rest [r [Hinit _]]].
  - intros ->. simpl in Hlen. lia.
  - eexists. split; [exact Hinit |].
    apply verify_fraud_proof_value.
Qed.

Lemma C10_scratch_tree_irrelevant_witness :
  exists t : MerkleTree,
    MerkleTree_init ["campaign:42"; "publisher:SP1ABC"] = Ok t
    /\ verify_fraud_proof "fraud_score:0.8734" ["00"] "ff"
       = Ok (verify_proof t "fraud_score:0.8734" (proof_tuples ["00"])
               (Some "ff")).
Proof.
  apply (proj1 (C10_scratch_tree_irrelevant "fraud_score:0.8734" ["00"] "ff")
           ["campaign:42"; "publisher:SP1ABC"]).
  reflexivity.
Defined.

(** C3 as stated fails on the empty proof list: the scratch tree has
    [len(proof) + 1 = 1] leaf, construction succeeds and a boolean comes
    back. *)
Lemma C3_empty_proof_returns :
  verify_fraud_proof "fraud_score:0.8734" [] "00" = Ok false.
Proof. vm_compute. reflexivity. Qed.

(** C3, amended. [verify_fraud_proof] does not raise for a mismatched
    proof: when the leaf hash folded through the proof hashes is not the
    expected root, it returns [False].  The empty proof list is not an
    invalid input: the scratch tree has [len(proof) + 1] leaves, one for
    the empty list and never zero, its construction succeeds instead of
    failing with the empty-leaves error, and the call returns whether the
    hash of the leaf text is the expected root. *)
Theorem C3_verify_fraud_proof_mismatch_and_empty :
  (forall (fraud_score_leaf : string) (proof : list string)
          (expected_root : string),
     String.eqb
       (fold_left apply_proof_element (proof_tuples proof)
          (_hash fraud_score_leaf))
       expected_root = false ->
     verify_fraud_proof fraud_score_leaf proof expected_root = Ok false)
  /\ (forall fraud_score_leaf expected_root : string,
        verify_fraud_proof fraud_score_leaf [] expected_root
        = Ok (String.eqb (_hash fraud_score_leaf) expected_root))
  /\ (forall proof : list string,
        exists t : MerkleTree,
          MerkleTree_init (repeat "" (List.length proof + 1)) = Ok t
          /\ List.length (leaves t) = (List.length proof + 1)%nat).
Proof.
  split; [| split].
  - intros fraud_score_leaf proof expected_root Hmismatch.
    now rewrite verify_fraud_proof_value, Hmismatch.
  - intros. apply verify_fraud_proof_value.
  - intros proof.
    destruct (init_nonempty (repeat "" (List.length proof + 1)))
      as [rest [r [Hinit _]]].
    + rewrite Nat.add_1_r. discriminate.
    + eexists. split; [exact Hinit |].
      cbn [leaves]. apply repeat_length.
Qed.

Lemma C3_verify_fraud_proof_mismatch_and_empty_witness :
  verify_fraud_proof "fraud_score:0.8734" ["00"] "ff" = Ok false.
Proof.
  apply (proj1 C3_verify_fraud_proof_mismatch_and_empty
           "fraud_score:0.8734" ["00"] "ff").
  vm_compute. reflexivity.
Defined.

Lemma init_three (A B C : string) :
  MerkleTree_init [A; B; C]
  = Ok (mkMerkleTree [A; B; C] [_hash A; _hash B; _hash C]
          [ [_hash A; _hash B; _hash C];
            [_hash_pair (_hash A) (_hash B); _hash_pair (_hash C) (_hash C)];
            [_hash_pair (_hash_pair (_hash A) (_hash B))
                        (_hash_pair (_hash C) (_hash C))] ]
          (Some (_hash_pair (_hash_pair (_hash A) (_hash B))
                            (_hash_pair (_hash C) (_hash C))))).
Proof.
  unfold MerkleTree_init. cbn [map]. run_build_tree. reflexivity.
Qed.

Lemma init_four (A B C D : string) :
  MerkleTree_init [A; B; C; D]
  = Ok (mkMerkleTree [A; B; C; D] [_hash A; _hash B; _hash C; _hash D]
          [ [_hash A; _hash B; _hash C; _hash D];
            [_hash_pair (_hash A) (_hash B); _hash_pair (_hash C) (_hash D)];
            [_hash_pair (_hash_pair (_hash A) (_hash B))
                        (_hash_pair (_hash C) (_hash D))] ]
          (Some (_hash_pair (_hash_pair (_hash A) (_hash B))
                            (_hash_pair (_hash C) (_hash D))))).
Proof.
  unfold MerkleTree_init. cbn [map]. run_build_tree. reflexivity.
Qed.

(** C4. For a 3-leaf tree [[A, B, C]], level 1 is
    [[pairHash(hA, hB), pairHash(hC, hC)]] and the root is the pair hash of
    these two; so the tree built from [[A, B, C, C]], and in particular
    from [["x", "y", "z", "z"]], has the root of the tree built from
    [[A, B, C]], resp. [["x", "y", "z"]]. *)
Theorem C4_three_leaf_tree (A B C : string) :
  exists t3 t4 : MerkleTree,
    MerkleTree_init [A; B; C] = Ok t3
    /\ MerkleTree_init [A; B; C; C] = Ok t4
    /\ nth_error (tree t3) 0 = Some [_hash A; _hash B; _hash C]
    /\ nth_error (tree t3) 1
       = Some [_hash_pair (_hash A) (_hash B); _hash_pair (_hash C) (_hash C)]
    /\ get_root t3
       = Some (_hash_pair (_hash_pair (_hash A) (_hash B))
                          (_hash_pair (_hash C) (_hash C)))
    /\ get_root t4 = get_root t3.
Proof.
  eexists _, _.
  split; [apply init_three | split; [apply init_four |]].
  split; [| split; [| split]]; reflexivity.
Qed.

Example three_leaves_xyz :
  (t <- MerkleTree_init ["x"; "y"; "z"] ;; Ok (get_root t))
  = Ok (Some "69bbe6b048f021d302f922c7fa937101660312bbe7677347b81c8c5fb01fbba3")
  /\ (t <- MerkleTree_init ["x"; "y"; "z"; "z"] ;; Ok (get_root t))
     = (t <- MerkleTree_init ["x"; "y"; "z"] ;; Ok (get_root t)).
Proof. split; vm_compute; reflexivity. Qed.

(** C5. The pair hash of two digests is SHA-256, in lowercase hex, of the
    bytes of the concatenated digest texts; a leaf hash is SHA-256 of the
    bytes of the leaf, and these are the leaf hashes and level 0 of a
    constructed tree.  On the digests of "x" and "y" the pair hash is the
    value [hashlib] gives for the 128-character text, and differs from the
    hash of the 64 decoded bytes. *)
Theorem C5_pair_hash_textual :
  (forall l r : string,
     _hash_pair l r = SHA256.hexdigest (encode (l ++ r)%string))
  /\ (forall leaf : string, _hash leaf = SHA256.hexdigest (encode leaf))
  /\ (forall lvs : list string,
        lvs <> [] ->
        exists t : MerkleTree,
          MerkleTree_init lvs = Ok t
          /\ leaf_hashes t
             = map (fun leaf => SHA256.hexdigest (encode leaf)) lvs
          /\ nth_error (tree t) 0 = Some (leaf_hashes t))
  /\ _hash_pair (_hash "x") (_hash "y")
     = "80d888481399c652ab6f09cdee09a96f9f7b665b7758a573275ca76a536e5e5f"
  /\ SHA256.hexdigest (bytes_fromhex (_hash "x") ++ bytes_fromhex (_hash "y"))
     = "f150e8508bbbc8be5232a999a3af77b03f4430f86e7b59593476710a5acb0156".
Proof.
  split; [reflexivity | split; [reflexivity | split]].
  - intros lvs Hne.
    destruct (init_nonempty lvs Hne) as [rest [r [Hinit _]]].
    eexists. split; [exact Hinit | split; reflexivity].
  - split; vm_compute; reflexivity.
Qed.

Lemma C5_pair_hash_textual_witness :
  exists t : MerkleTree,
    MerkleTree_init ["x"; "y"] = Ok t
    /\ leaf_hashes t
       = map (fun leaf => SHA256.hexdigest (encode leaf)) ["x"; "y"]
    /\ nth_error (tree t) 0 = Some (leaf_hashes t).
Proof.
  apply (proj1 (proj2 (proj2 C5_pair_hash_textual)) ["x"; "y"]).
  discriminate.
Defined.

(** [create_fraud_proof] on its six leaves, whatever they are. *)
Lemma six_leaves (a b c d e f : string) :
  (tree <- MerkleTree_init [a; b; c; d; e; f] ;;
   proof <- get_proof_hex tree 4 ;;
   Ok (get_root tree, proof))
  = Ok (Some (_hash_pair
                (_hash_pair (_hash_pair (_hash a) (_hash b))
                            (_hash_pair (_hash c) (_hash d)))
                (_hash_pair (_hash_pair (_hash e) (_hash f))
                            (_hash_pair (_hash e) (_hash f)))),
        [ _hash f;
          _hash_pair (_hash e) (_hash f);
          _hash_pair (_hash_pair (_hash a) (_hash b))
                     (_hash_pair (_hash c) (_hash d)) ]).
Proof.
  unfold MerkleTree_init. cbn [map]. run_build_tree. reflexivity.
Qed.

(** C7. For any six fields [create_fraud_proof] returns a root that is a
    64-character lowercase hexadecimal string and a proof of exactly three
    elements, each such a string; equal arguments give equal results. *)
Theorem C7_create_fraud_proof_shape (campaign_id : Z) (publisher_id : string)
    (impressions clicks : Z) (fraud_score : spec_float) (timestamp : Z) :
  (exists root_hash p0 p1 p2 : string,
     create_fraud_proof campaign_id publisher_id impressions clicks
       fraud_score timestamp = Ok (Some root_hash, [p0; p1; p2])
     /\ is_digest root_hash = true
     /\ is_digest p0 = true /\ is_digest p1 = true /\ is_digest p2 = true)
  /\ (forall (campaign_id' : Z) (publisher_id' : string)
             (impressions' clicks' : Z) (fraud_score' : spec_float)
             (timestamp' : Z),
        (campaign_id', publisher_id', impressions', clicks', fraud_score',
         timestamp')
        = (campaign_id, publisher_id, impressions, clicks, fraud_score,
           timestamp) ->
        create_fraud_proof campaign_id' publisher_id' impressions' clicks'
          fraud_score' timestamp'
        = create_fraud_proof campaign_id publisher_id impressions clicks
            fraud_score timestamp).
Proof.
  split.
  - unfold create_fraud_proof. cbv zeta. rewrite six_leaves.
    do 4 eexists. split; [reflexivity |].
    unfold _hash_pair.
    split; [| split; [| split]]; apply hash_is_digest.
  - intros c' p' i' k' f' t' Heq. injection Heq as -> -> -> -> -> ->.
    reflexivity.
Qed.

Lemma C7_create_fraud_proof_shape_witness :
  exists root_hash p0 p1 p2 : string,
    create_fraud_proof 42 "SP1ABC" 1000 50 score_0_8734 1700000000
    = Ok (Some root_hash, [p0; p1; p2])
    /\ is_digest root_hash = true
    /\ is_digest p0 = true /\ is_digest p1 = true /\ is_digest p2 = true.
Proof.
  exact (proj1 (C7_create_fraud_proof_shape 42 "SP1ABC" 1000 50
                  score_0_8734 1700000000)).
Defined.

(** The round trip on any six leaves: [verify_fraud_proof] on the proof of
    leaf 4 hashes the first pair as sibling-then-node, where the tree has
    node-then-sibling, and compares the outcome with the root. *)
Lemma fraud_roundtrip_value (a b c d e f : string) :
  let upper := _hash_pair (_hash_pair (_hash a) (_hash b))
                          (_hash_pair (_hash c) (_hash d)) in
  let pair_ef := _hash_pair (_hash e) (_hash f) in
  let pair_fe := _hash_pair (_hash f) (_hash e) in
  verify_fraud_proof e [_hash f; pair_ef; upper]
    (_hash_pair upper (_hash_pair pair_ef pair_ef))
  = Ok (String.eqb (_hash_pair upper (_hash_pair pair_fe pair_ef))
                   (_hash_pair upper (_hash_pair pair_ef pair_ef))).
Proof.
  cbv zeta. rewrite verify_fraud_proof_value. reflexivity.
Qed.

(** C2 fails on the specification's own scenario.  [create_fraud_proof]
    returns the root and the three sibling hashes below; the sides of the
    true path are right, right, left, and [verify_proof] with them accepts
    the leaf; [verify_fraud_proof] tags the same hashes left, right, left
    and returns [False]. *)
Theorem C2_fraud_roundtrip_scenario :
  let root_hash :=
    "988ab632c993fa4ece526d867b43c2e31e76753f6cc0fb187fbf77fb590fe344" in
  let proof :=
    [ "4a65fc2bfde8f0a8d5393e019e5035e46d4ff5c38ee572def8f4ab7229719578";
      "5bfd4249f92087d7516ac67a8f12ee2829d57c95d4165e4222aba3aba7a56141";
      "6218a5f0ce16ade2df19b8ee4a09e42fdb30eb680721d056cd0aca1883aa7848" ] in
  create_fraud_proof 42 "SP1ABC" 1000 50 score_0_8734 1700000000
  = Ok (Some root_hash, proof)
  /\ (t <- MerkleTree_init
             [ "campaign:42"; "publisher:SP1ABC"; "impressions:1000";
               "clicks:50"; "fraud_score:0.8734"; "timestamp:1700000000" ] ;;
      p <- get_proof t 4 ;;
      Ok (p, verify_proof t "fraud_score:0.8734" p (Some root_hash)))
     = Ok (combine proof ["right"; "right"; "left"], true)
  /\ proof_tuples proof = combine proof ["left"; "right"; "left"]
  /\ verify_fraud_proof "fraud_score:0.8734" proof root_hash = Ok false.
Proof.
  cbv zeta. split; [| split; [| split]]; vm_compute; reflexivity.
Qed.

(* ===================================================================== *)
(** ** The proof path in closed form *)
(* ===================================================================== *)

(** The loop of [get_proof] appends exactly the [path_entries]. *)
Lemma get_proof_loop_entries (suf : list (list string)) :
  chain suf ->
  forall (pre : list (list string)) (proof : list (string * string))
         (i : nat),
    (i < List.length (hd [] suf))%nat ->
    get_proof_loop (pre ++ suf)
      (map Z.of_nat (seq (List.length pre) (List.length suf - 1)))
      proof (Z.of_nat i)
    = Ok (proof ++ path_entries suf i).
Proof.
  induction 1 as [l Hl | l rest Hl Hrest IH]; intros pre proof i Hi.
  - simpl. now rewrite app_nil_r.
  - simpl hd in Hi.
    replace (List.length (l :: next_level l :: rest) - 1)%nat
      with (S (List.length (next_level l :: rest) - 1)) by (simpl; lia).
    cbn [seq map get_proof_loop].
    rewrite (getitem_nat _ _ _ l)
      by (rewrite nth_error_app2, Nat.sub_diag by lia; reflexivity).
    cbn [bind]. rewrite append_sibling_ok by exact Hi. cbn [bind].
    rewrite half_of_nat.
    specialize (IH (pre ++ [l]) (proof ++ [sibling_entry l i]) (Nat.div2 i)).
    rewrite <- app_assoc, length_app in IH.
    simpl (List.length [l]) in IH. cbn [app hd] in IH.
    rewrite Nat.add_1_r in IH.
    rewrite IH.
    + change (path_entries (l :: next_level l :: rest) i)
        with (sibling_entry l i
                :: path_entries (next_level l :: rest) (Nat.div2 i)).
      now rewrite <- app_assoc.
    + rewrite next_level_length. now apply div2_lt_ceil_half.
Qed.

(** [get_proof] on a constructed tree, for an index in range. *)
Lemma get_proof_entries (lvs : list string) (rest : list (list string))
    (r : string) (i : nat) :
  chain (map _hash lvs :: rest) ->
  (i < List.length lvs)%nat ->
  get_proof (mkMerkleTree lvs (map _hash lvs) (map _hash lvs :: rest)
               (Some r)) (Z.of_nat i)
  = Ok (path_entries (map _hash lvs :: rest) i).
Proof.
  intros Hchain Hi.
  pose proof (get_proof_loop_entries _ Hchain [] [] i) as Hrun.
  simpl in Hrun. rewrite Nat.sub_0_r, length_map in Hrun.
  specialize (Hrun Hi).
  unfold get_proof. simpl leaf_hashes. simpl tree. rewrite length_map.
  destruct (Z.ltb_spec (Z.of_nat i) 0) as [Hneg | _]; [exfalso; lia |].
  destruct (Z.geb_spec (Z.of_nat i) (Z.of_nat (List.length lvs)))
    as [Hge | _]; [exfalso; lia |].
  simpl orb. cbv iota.
  replace (Z.of_nat (List.length (map _hash lvs :: rest)) - 1)
    with (Z.of_nat (List.length rest))
    by (cbn [List.length]; lia).
  rewrite range_seq. exact Hrun.
Qed.

Lemma path_entries_length (levels : list (list string)) :
  forall i : nat,
    List.length (path_entries levels i) = (List.length levels - 1)%nat.
Proof.
  induction levels as [| lvl upper IH]; intros i; [reflexivity |].
  destruct upper as [| lvl' upper']; [reflexivity |].
  change (path_entries (lvl :: lvl' :: upper') i)
    with (sibling_entry lvl i :: path_entries (lvl' :: upper') (Nat.div2 i)).
  cbn [List.length]. rewrite IH. cbn [List.length]. lia.
Qed.

Lemma sibling_entry_side (lvl : list string) (i : nat) :
  snd (sibling_entry lvl i) = side_of i.
Proof.
  unfold sibling_entry, side_of.
  destruct (Nat.odd i); [reflexivity |].
  now destruct (S i <? List.length lvl)%nat.
Qed.

Lemma path_entries_sides (levels : list (list string)) :
  forall i : nat,
    map snd (path_entries levels i)
    = map (fun k => side_of (i / 2 ^ k)%nat)
          (seq 0 (List.length levels - 1)).
Proof.
  induction levels as [| lvl upper IH]; intros i; [reflexivity |].
  destruct upper as [| lvl' upper']; [reflexivity |].
  change (path_entries (lvl :: lvl' :: upper') i)
    with (sibling_entry lvl i :: path_entries (lvl' :: upper') (Nat.div2 i)).
  replace (List.length (lvl :: lvl' :: upper') - 1)%nat
    with (S (List.length (lvl' :: upper') - 1)) by (simpl; lia).
  cbn [map seq]. rewrite sibling_entry_side, IH.
  f_equal.
  - now rewrite Nat.pow_0_r, Nat.div_1_r.
  - rewrite <- seq_shift, map_map. apply map_ext. intros k.
    rewrite Nat.div2_div, Nat.Div0.div_div. reflexivity.
Qed.

Lemma sibling_entry_in (lvl : list string) (i : nat) :
  (i < List.length lvl)%nat -> In (fst (sibling_entry lvl i)) lvl.
Proof.
  intros Hi. unfold sibling_entry.
  destruct (Nat.odd i).
  - apply nth_In. lia.
  - destruct (Nat.ltb_spec (S i) (List.length lvl)); apply nth_In; lia.
Qed.

(** Each recorded hash is a node of the level it was recorded at. *)
Lemma path_entries_in (t : list (list string)) :
  chain t ->
  forall (i k : nat) (entry : string * string),
    (i < List.length (hd [] t))%nat ->
    nth_error (path_entries t i) k = Some entry ->
    exists lvl : list string,
      nth_error t k = Some lvl /\ In (fst entry) lvl.
Proof.
  induction 1 as [l Hl | l rest Hl Hrest IH]; intros i k entry Hi Hk.
  - destruct k; discriminate.
  - simpl hd in Hi.
    change (path_entries (l :: next_level l :: rest) i)
      with (sibling_entry l i
              :: path_entries (next_level l :: rest) (Nat.div2 i)) in Hk.
    destruct k as [| k].
    + injection Hk as <-. exists l. split; [reflexivity |].
      now apply sibling_entry_in.
    + apply (IH (Nat.div2 i) k entry); [| exact Hk].
      simpl hd. rewrite next_level_length. now apply div2_lt_ceil_half.
Qed.

Lemma next_level_digests (l : list string) :
  Forall (fun h => is_digest h = true) (next_level l).
Proof.
  induction l as [| a | a b l IH] using list_pair_ind.
  - constructor.
  - repeat constructor. apply hash_is_digest.
  - constructor; [apply hash_is_digest | exact IH].
Qed.

Lemma chain_digests (t : list (list string)) :
  chain t ->
  Forall (fun h => is_digest h = true) (hd [] t) ->
  Forall (Forall (fun h => is_digest h = true)) t.
Proof.
  induction 1 as [l Hl | l rest Hl Hrest IH]; intros Hhd.
  - constructor; [exact Hhd | constructor].
  - constructor; [exact Hhd |]. apply IH. apply next_level_digests.
Qed.

(** The number of levels above a level of [n] nodes is [ceil(log2 n)]. *)
Lemma chain_log2 (t : list (list string)) :
  chain t ->
  (List.length (hd [] t) <= 2 ^ (List.length t - 1)
   /\ 2 ^ (List.length t - 1) < 2 * List.length (hd [] t))%nat.
Proof.
  induction 1 as [l Hl | l rest Hl Hrest IH].
  - simpl. lia.
  - simpl hd in *. rewrite next_level_length in IH.
    replace (List.length (l :: next_level l :: rest) - 1)%nat
      with (S (List.length (next_level l :: rest) - 1)) by (simpl; lia).
    set (k := (List.length (next_level l :: rest) - 1)%nat) in *.
    rewrite Nat.pow_succ_r'.
    unfold ceil_half in IH.
    pose proof (Nat.div2_odd (S (List.length l))) as Hpar.
    destruct (Nat.odd (S (List.length l))) eqn:Hodd; simpl Nat.b2n in Hpar.
    + lia.
    + destruct k as [| k'].
      * simpl in *. lia.
      * rewrite Nat.pow_succ_r' in *. lia.
Qed.

(* ===================================================================== *)
(** ** Further properties of [MerkleTree] *)
(* ===================================================================== *)

(** X1. On the tree built from [n >= 1] leaves, [get_proof] and
    [get_proof_hex] return, for every index in range, exactly [d] entries,
    where [d] is the number of levels minus one and [n <= 2^d < 2n]: the
    proof length is [ceil(log2 n)]. *)
Theorem X1_proof_length_log2 (lvs : list string) :
  lvs <> [] ->
  exists (t : MerkleTree) (d : nat),
    MerkleTree_init lvs = Ok t
    /\ List.length (tree t) = S d
    /\ (List.length lvs <= 2 ^ d /\ 2 ^ d < 2 * List.length lvs)%nat
    /\ forall index : Z,
         0 <= index < Z.of_nat (List.length lvs) ->
         exists (proof : list (string * string)) (hashes : list string),
           get_proof t index = Ok proof
           /\ get_proof_hex t index = Ok hashes
           /\ List.length proof = d
           /\ List.length hashes = d.
Proof.
  intros Hne.
  destruct (init_nonempty lvs Hne) as [rest [r [Hinit [Hchain _]]]].
  exists (mkMerkleTree lvs (map _hash lvs) (map _hash lvs :: rest) (Some r)),
         (List.length rest).
  split; [exact Hinit | split; [reflexivity | split]].
  - pose proof (chain_log2 _ Hchain) as Hlog.
    simpl hd in Hlog. rewrite length_map in Hlog.
    cbn [List.length] in Hlog. rewrite Nat.sub_succ, Nat.sub_0_r in Hlog.
    exact Hlog.
  - intros index Hi.
    pose proof (get_proof_entries lvs rest r (Z.to_nat index) Hchain) as Hp.
    rewrite Z2Nat.id in Hp by lia.
    exists (path_entries (map _hash lvs :: rest) (Z.to_nat index)),
           (map fst (path_entries (map _hash lvs :: rest) (Z.to_nat index))).
    unfold get_proof_hex. rewrite Hp by lia.
    split; [reflexivity | split; [reflexivity |]].
    rewrite length_map, path_entries_length.
    cbn [List.length]. lia.
Qed.

Lemma X1_proof_length_log2_witness :
  exists (t : MerkleTree) (d : nat),
    MerkleTree_init ["a"; "b"; "c"; "d"; "e"] = Ok t
    /\ List.length (tree t) = S d
    /\ (5 <= 2 ^ d /\ 2 ^ d < 2 * 5)%nat
    /\ forall index : Z,
         0 <= index < 5 ->
         exists (proof : list (string * string)) (hashes : list string),
           get_proof t index = Ok proof
           /\ get_proof_hex t index = Ok hashes
           /\ List.length proof = d
           /\ List.length hashes = d.
Proof.
  apply (X1_proof_length_log2 ["a"; "b"; "c"; "d"; "e"]). discriminate.
Defined.

(** X2. In the proof [get_proof] returns for leaf [i], entry [k] is tagged
    'left' when [i // 2^k] is odd and 'right' when it is even: the sides
    are the binary digits of the index, lowest first. *)
Theorem X2_proof_sides_are_index_bits (lvs : list string) (i : nat) :
  (i < List.length lvs)%nat ->
  exists (t : MerkleTree) (proof : list (string * string)),
    MerkleTree_init lvs = Ok t
    /\ get_proof t (Z.of_nat i) = Ok proof
    /\ map snd proof
       = map (fun k => if Nat.odd (i / 2 ^ k) then "left" else "right")
             (seq 0 (List.length (tree t) - 1)).
Proof.
  intros Hi.
  assert (Hne : lvs <> []) by (intros ->; simpl in Hi; lia).
  destruct (init_nonempty lvs Hne) as [rest [r [Hinit [Hchain _]]]].
  eexists _, _. split; [exact Hinit | split].
  - now apply get_proof_entries.
  - simpl tree. apply path_entries_sides.
Qed.

Lemma X2_proof_sides_are_index_bits_witness :
  exists (t : MerkleTree) (proof : list (string * string)),
    MerkleTree_init ["a"; "b"; "c"; "d"; "e"; "f"] = Ok t
    /\ get_proof t 4 = Ok proof
    /\ map snd proof
       = map (fun k => if Nat.odd (4 / 2 ^ k) then "left" else "right")
             (seq 0 (List.length (tree t) - 1)).
Proof.
  apply (X2_proof_sides_are_index_bits ["a"; "b"; "c"; "d"; "e"; "f"] 4).
  simpl. lia.
Defined.

(** X3. On a constructed tree the root and every node of every level is a
    64-character lowercase hexadecimal string.  For an index in range
    [get_proof_hex] returns such strings, the [k]-th being a node of level
    [k]; out of range it raises the [ValueError] of [get_proof]. *)
Theorem X3_nodes_and_proof_hashes (lvs : list string) :
  lvs <> [] ->
  exists (t : MerkleTree) (r : string),
    MerkleTree_init lvs = Ok t
    /\ get_root t = Some r
    /\ is_digest r = true
    /\ Forall (Forall (fun h => is_digest h = true)) (tree t)
    /\ forall index : Z,
         (0 <= index < Z.of_nat (List.length lvs) ->
          exists hashes : list string,
            get_proof_hex t index = Ok hashes
            /\ Forall (fun h => is_digest h = true) hashes
            /\ forall (k : nat) (h : string),
                 nth_error hashes k = Some h ->
                 exists lvl : list string,
                   nth_error (tree t) k = Some lvl /\ In h lvl)
         /\ (index < 0 \/ index >= Z.of_nat (List.length lvs) ->
             get_proof_hex t index = Raise (OutOfRange index)).
Proof.
  intros Hne.
  destruct (init_nonempty lvs Hne) as [rest [r [Hinit [Hchain Hlast]]]].
  assert (Hall : Forall (Forall (fun h => is_digest h = true))
                   (map _hash lvs :: rest)).
  { apply chain_digests; [exact Hchain |].
    simpl hd. apply Forall_forall. intros h Hin.
    apply in_map_iff in Hin. destruct Hin as [x [<- _]].
    apply hash_is_digest. }
  assert (Hmem : forall (i k : nat) (h : string),
            (i < List.length lvs)%nat ->
            nth_error (map fst (path_entries (map _hash lvs :: rest) i)) k
            = Some h ->
            exists lvl, nth_error (map _hash lvs :: rest) k = Some lvl
                        /\ In h lvl).
  { intros i k h Hi Hk. rewrite nth_error_map in Hk.
    destruct (nth_error (path_entries (map _hash lvs :: rest) i) k)
      as [entry |] eqn:Hentry; [| discriminate].
    injection Hk as <-.
    apply (path_entries_in _ Hchain i k entry); [| exact Hentry].
    simpl hd. now rewrite length_map. }
  eexists _, r. split; [exact Hinit | split; [reflexivity | split]].
  - assert (Hr : In [r] (map _hash lvs :: rest)).
    { rewrite <- Hlast.
      assert (Hne' : map _hash lvs :: rest <> []) by discriminate.
      destruct (exists_last Hne') as [l' [a Heq]].
      rewrite Heq, last_last. apply in_or_app. right. now left. }
    rewrite Forall_forall in Hall. specialize (Hall [r] Hr).
    now inversion Hall.
  - simpl tree. split; [exact Hall |].
    intros index. split.
    + intros Hi.
      pose proof (get_proof_entries lvs rest r (Z.to_nat index) Hchain) as Hp.
      rewrite Z2Nat.id in Hp by lia.
      unfold get_proof_hex. rewrite Hp by lia. cbn [bind].
      eexists. split; [reflexivity | split].
      * apply Forall_forall. intros h Hin.
        apply In_nth_error in Hin. destruct Hin as [k Hk].
        destruct (Hmem (Z.to_nat index) k h) as [lvl [Hlvl Hin]];
          [lia | exact Hk |].
        rewrite Forall_forall in Hall.
        apply nth_error_In in Hlvl. specialize (Hall lvl Hlvl).
        rewrite Forall_forall in Hall. now apply Hall.
      * intros k h Hk. apply (Hmem (Z.to_nat index)); [lia | exact Hk].
    + intros Hout. unfold get_proof_hex, get_proof, OutOfRange.
      simpl leaf_hashes. rewrite length_map.
      destruct (Z.ltb_spec index 0) as [Hneg | Hnn]; [reflexivity |].
      destruct (Z.geb_spec index (Z.of_nat (List.length lvs)))
        as [Hge | Hlt]; [reflexivity | exfalso; lia].
Qed.

Lemma X3_nodes_and_proof_hashes_witness :
  exists (t : MerkleTree) (r : string),
    MerkleTree_init ["a"; "b"; "c"] = Ok t
    /\ get_root t = Some r
    /\ is_digest r = true
    /\ Forall (Forall (fun h => is_digest h = true)) (tree t)
    /\ forall index : Z,
         (0 <= index < 3 ->
          exists hashes : list string,
            get_proof_hex t index = Ok hashes
            /\ Forall (fun h => is_digest h = true) hashes
            /\ forall (k : nat) (h : string),
                 nth_error hashes k = Some h ->
                 exists lvl : list string,
                   nth_error (tree t) k = Some lvl /\ In h lvl)
         /\ (index < 0 \/ index >= 3 ->
             get_proof_hex t index = Raise (OutOfRange index)).
Proof.
  apply (X3_nodes_and_proof_hashes ["a"; "b"; "c"]). discriminate.
Defined.

(** X4. With the [root] argument left out, [verify_proof] compares with
    the root of the tree it is called on: on the tree built from the
    leaves, [verify_proof(leaves[i], get_proof(i))] is [True] for every
    index in range. *)
Theorem X4_verify_proof_default_root (lvs : list string) (i : Z) :
  0 <= i < Z.of_nat (List.length lvs) ->
  exists (t : MerkleTree) (leaf : string) (proof : list (string * string)),
    MerkleTree_init lvs = Ok t
    /\ getitem lvs i = Ok leaf
    /\ get_proof t i = Ok proof
    /\ verify_proof t leaf proof None = true.
Proof.
  intros Hi.
  assert (Hne : lvs <> []) by (intros ->; simpl in Hi; lia).
  destruct (init_nonempty lvs Hne) as [rest [r [Hinit [Hchain Hlast]]]].
  destruct (get_proof_in_range lvs rest r (Z.to_nat i) Hchain Hlast)
    as [proof [Hproof [Hfold _]]]; [lia |].
  rewrite Z2Nat.id in Hproof by lia.
  eexists _, (nth (Z.to_nat i) lvs ""), proof.
  split; [exact Hinit | split; [| split; [exact Hproof |]]].
  - now apply getitem_in_range.
  - unfold verify_proof. simpl root.
    rewrite Hfold. apply String.eqb_refl.
Qed.

Lemma X4_verify_proof_default_root_witness :
  exists (t : MerkleTree) (leaf : string) (proof : list (string * string)),
    MerkleTree_init ["a"; "b"; "c"] = Ok t
    /\ getitem ["a"; "b"; "c"] 2 = Ok leaf
    /\ get_proof t 2 = Ok proof
    /\ verify_proof t leaf proof None = true.
Proof.
  apply (X4_verify_proof_default_root ["a"; "b"; "c"] 2). simpl. lia.
Defined.

Lemma next_level_dup_last (l : list string) :
  Nat.odd (List.length l) = true ->
  next_level (l ++ [last l ""]) = next_level l.
Proof.
  induction l as [| a | a b l IH] using list_pair_ind; intros Hodd.
  - discriminate.
  - reflexivity.
  - change (List.length (a :: b :: l)) with (S (S (List.length l))) in Hodd.
    rewrite Nat.odd_succ_succ in Hodd.
    destruct l as [| c l]; [discriminate |].
    change (last (a :: b :: c :: l) "") with (last (c :: l) "").
    change ((a :: b :: c :: l) ++ [last (c :: l) ""])
      with (a :: b :: ((c :: l) ++ [last (c :: l) ""])).
    change (next_level (a :: b :: (c :: l) ++ [last (c :: l) ""]))
      with (_hash_pair a b :: next_level ((c :: l) ++ [last (c :: l) ""])).
    now rewrite (IH Hodd).
Qed.

Lemma last_map_hash (l : list string) :
  l <> [] -> last (map _hash l) "" = _hash (last l "").
Proof.
  intros Hne. destruct (exists_last Hne) as [l0 [a ->]].
  rewrite map_app. cbn [map]. now rewrite !last_last.
Qed.

(** A chain of levels is determined by its first level. *)
Lemma chain_unique (t1 : list (list string)) :
  chain t1 ->
  forall t2 : list (list string),
    chain t2 -> hd [] t1 = hd [] t2 -> t1 = t2.
Proof.
  induction 1 as [l Hl | l rest Hl Hrest IH]; intros t2 H2 Hhd.
  - destruct H2 as [l2 Hl2 | l2 rest2 Hl2 Hrest2]; simpl in Hhd; subst l2.
    + reflexivity.
    + lia.
  - destruct H2 as [l2 Hl2 | l2 rest2 Hl2 Hrest2]; simpl in Hhd; subst l2.
    + lia.
    + f_equal. apply IH; [exact Hrest2 | reflexivity].
Qed.

(** X5. For a leaf list of odd length at least 3, appending a copy of the
    last leaf changes level 0 only: the tree built from
    [leaves + [leaves[-1]]] has the same upper levels and the same root
    as the tree built from [leaves]. *)
Theorem X5_duplicated_last_leaf_same_root (lvs : list string) :
  Nat.odd (List.length lvs) = true ->
  (1 < List.length lvs)%nat ->
  exists t t' : MerkleTree,
    MerkleTree_init lvs = Ok t
    /\ MerkleTree_init (lvs ++ [last lvs ""]) = Ok t'
    /\ tl (tree t') = tl (tree t)
    /\ get_root t' = get_root t.
Proof.
  intros Hodd Hlen.
  assert (Hne : lvs <> []) by (intros ->; simpl in Hlen; lia).
  assert (Hne' : lvs ++ [last lvs ""] <> [])
    by (intros H; apply app_eq_nil in H; destruct H; discriminate).
  destruct (init_nonempty lvs Hne) as [rest [r [Hinit [Hchain Hlast]]]].
  destruct (init_nonempty _ Hne') as [rest' [r' [Hinit' [Hchain' Hlast']]]].
  assert (Hmap : map _hash (lvs ++ [last lvs ""])
                 = map _hash lvs ++ [last (map _hash lvs) ""]).
  { rewrite map_app. simpl. f_equal. f_equal.
    symmetry. now apply last_map_hash. }
  assert (Hrest : rest' = rest).
  { rewrite Hmap in Hchain'.
    inversion Hchain as [l0 Hl0 | l0 rest0 Hl0 Hrest0];
      [rewrite length_map in Hl0; lia |]. subst.
    inversion Hchain' as [l1 Hl1 | l1 rest1 Hl1 Hrest1];
      [rewrite length_app, length_map in Hl1; simpl in Hl1; lia |]. subst.
    rewrite next_level_dup_last in * by now rewrite length_map.
    now apply chain_unique. }
  subst rest'.
  eexists _, _. split; [exact Hinit | split; [exact Hinit' |]].
  split; [reflexivity |].
  unfold get_root. simpl root. f_equal.
  assert (Hr : [r'] = [r]); [| congruence].
  rewrite <- Hlast, <- Hlast'.
  inversion Hchain as [l0 Hl0 | l0 rest0 Hl0 Hrest0];
    [rewrite length_map in Hl0; lia |].
  reflexivity.
Qed.

Lemma X5_duplicated_last_leaf_same_root_witness :
  exists t t' : MerkleTree,
    MerkleTree_init ["a"; "b"; "c"; "d"; "e"] = Ok t
    /\ MerkleTree_init ["a"; "b"; "c"; "d"; "e"; "e"] = Ok t'
    /\ tl (tree t') = tl (tree t)
    /\ get_root t' = get_root t.
Proof.
  apply (X5_duplicated_last_leaf_same_root ["a"; "b"; "c"; "d"; "e"]).
  - reflexivity.
  - simpl. lia.
Defined.

(** X6. [verify_proof] reads a side tag only to test it against 'left':
    replacing every tag that is not 'left' by 'right' changes the result
    for no tree, leaf, proof and root. *)
Theorem X6_any_other_tag_is_right (t : MerkleTree) (leaf_data : string)
    (proof : list (string * string)) (root_ : option string) :
  verify_proof t leaf_data
    (map (fun '(h, position) =>
            (h, if String.eqb position "left" then "left" else "right"))
         proof) root_
  = verify_proof t leaf_data proof root_.
Proof.
  unfold verify_proof. f_equal.
  generalize (_hash leaf_data) as current_hash.
  induction proof as [| [h position] proof IH]; intros current_hash;
    [reflexivity |].
  cbn [map fold_left]. rewrite <- IH. f_equal.
  unfold apply_proof_element.
  destruct (String.eqb position "left"); reflexivity.
Qed.

Lemma even_of_nat (k : nat) : (Z.of_nat k mod 2 =? 0) = Nat.even k.
Proof.
  pose proof (parity_split k) as H.
  rewrite <- Nat.negb_odd.
  destruct (Nat.odd k); cbn [negb];
    [apply Z.eqb_neq | apply Z.eqb_eq];
    Z.div_mod_to_equations; lia.
Qed.

(** The tags [verify_fraud_proof] rebuilds: left, right, left, ... *)
Lemma proof_tuples_assumed (hashes : list string) :
  proof_tuples hashes
  = combine hashes (map assumed_side (seq 0 (List.length hashes))).
Proof.
  unfold proof_tuples, enumerate. rewrite range_seq.
  generalize 0%nat as start.
  induction hashes as [| h hashes IH]; intros start; [reflexivity |].
  cbn [List.length seq map combine]. rewrite IH. f_equal.
  unfold assumed_side. now rewrite even_of_nat.
Qed.

Lemma combine_fst_snd (A B : Type) (l : list (A * B)) :
  combine (map fst l) (map snd l) = l.
Proof.
  induction l as [| [a b] l IH]; [reflexivity |].
  cbn [map combine fst snd]. now rewrite IH.
Qed.

(** X7. The round trip through [get_proof_hex] and [verify_fraud_proof]
    succeeds for the leaf whose index has the binary digits 1, 0, 1, 0, ...
    from the lowest up, over all levels below the root: if [i // 2^k] is
    odd exactly for even [k], for every [k] with [2^k < len(leaves)], then
    [verify_fraud_proof(leaves[i], get_proof_hex(i), get_root())] is
    [True]. *)
Theorem X7_fraud_proof_roundtrip_on_alternating_path (lvs : list string)
    (i : nat) :
  (i < List.length lvs)%nat ->
  (forall k : nat,
     (2 ^ k < List.length lvs)%nat -> Nat.odd (i / 2 ^ k) = Nat.even k) ->
  exists (t : MerkleTree) (hashes : list string) (r : string),
    MerkleTree_init lvs = Ok t
    /\ get_proof_hex t (Z.of_nat i) = Ok hashes
    /\ get_root t = Some r
    /\ verify_fraud_proof (nth i lvs "") hashes r = Ok true.
Proof.
  intros Hi Hbits.
  assert (Hne : lvs <> []) by (intros ->; simpl in Hi; lia).
  destruct (init_nonempty lvs Hne) as [rest [r [Hinit [Hchain Hlast]]]].
  destruct (get_proof_in_range lvs rest r i Hchain Hlast Hi)
    as [proof [Hproof [Hfold Hlen]]].
  pose proof (get_proof_entries lvs rest r i Hchain Hi) as Hentries.
  assert (Hpath : proof = path_entries (map _hash lvs :: rest) i)
    by congruence.
  clear Hentries.
  exists (mkMerkleTree lvs (map _hash lvs) (map _hash lvs :: rest) (Some r)),
         (map fst proof), r.
  split; [exact Hinit | split; [| split; [reflexivity |]]].
  - unfold get_proof_hex. now rewrite Hproof.
  - rewrite verify_fraud_proof_value, proof_tuples_assumed, length_map.
    assert (Hsides : map snd proof
                     = map assumed_side (seq 0 (List.length proof))).
    { rewrite Hlen, Hpath, path_entries_sides.
      cbn [List.length]. rewrite Nat.sub_succ, Nat.sub_0_r.
      apply map_ext_in. intros k Hk. apply in_seq in Hk.
      unfold side_of, assumed_side. rewrite Hbits; [reflexivity |].
      pose proof (chain_log2 _ Hchain) as [_ Hlog].
      simpl hd in Hlog. rewrite length_map in Hlog.
      cbn [List.length] in Hlog. rewrite Nat.sub_succ, Nat.sub_0_r in Hlog.
      destruct (List.length rest) as [| d]; [lia |].
      rewrite Nat.pow_succ_r' in Hlog.
      assert (2 ^ k <= 2 ^ d)%nat by (apply Nat.pow_le_mono_r; lia).
      lia. }
    rewrite <- Hsides, combine_fst_snd, Hfold.
    now rewrite String.eqb_refl.
Qed.

Lemma X7_fraud_proof_roundtrip_on_alternating_path_witness :
  exists (t : MerkleTree) (hashes : list string) (r : string),
    MerkleTree_init ["a"; "b"; "c"; "d"; "e"; "f"] = Ok t
    /\ get_proof_hex t 5 = Ok hashes
    /\ get_root t = Some r
    /\ verify_fraud_proof "f" hashes r = Ok true.
Proof.
  apply (X7_fraud_proof_roundtrip_on_alternating_path
           ["a"; "b"; "c"; "d"; "e"; "f"] 5).
  - simpl. lia.
  - intros [| [| [| k]]] Hk; try reflexivity.
    exfalso. cbn [List.length] in Hk.
    rewrite !Nat.pow_succ_r' in Hk.
    pose proof (Nat.pow_nonzero 2 k). lia.
Defined.

(** X8. For any six fields, the three hashes [create_fraud_proof] returns
    verify the fraud-score leaf against the returned root under
    [verify_proof] when tagged right, right, left, on any tree
    instance. *)
Theorem X8_fraud_proof_true_sides (campaign_id : Z) (publisher_id : string)
    (impressions clicks : Z) (fraud_score : spec_float) (timestamp : Z)
    (t : MerkleTree) :
  exists root_hash p0 p1 p2 : string,
    create_fraud_proof campaign_id publisher_id impressions clicks
      fraud_score timestamp = Ok (Some root_hash, [p0; p1; p2])
    /\ verify_proof t ("fraud_score:" ++ format_4f fraud_score)
         [(p0, "right"); (p1, "right"); (p2, "left")] (Some root_hash)
       = true.
Proof.
  unfold create_fraud_proof. cbv zeta. rewrite six_leaves.
  do 4 eexists. split; [reflexivity |].
  unfold verify_proof. cbn [fold_left]. unfold apply_proof_element.
  change (String.eqb "right" "left") with false.
  change (String.eqb "left" "left") with true.
  cbv iota. apply String.eqb_refl.
Qed.

(** X9. [to_dict] of the tree built from [n >= 1] leaves: 'leaf_count' is
    [n], 'leaf_hashes' has [n] entries, 'root' is a 64-character hex
    string, and 'tree_depth' is [ceil(log2 n) + 1]:
    [n <= 2^(tree_depth - 1) < 2n]. *)
Theorem X9_to_dict_depth (lvs : list string) :
  lvs <> [] ->
  exists (t : MerkleTree) (r : string),
    MerkleTree_init lvs = Ok t
    /\ TreeDict.leaves (to_dict t) = lvs
    /\ TreeDict.leaf_count (to_dict t) = Z.of_nat (List.length lvs)
    /\ Z.of_nat (List.length (TreeDict.leaf_hashes (to_dict t)))
       = TreeDict.leaf_count (to_dict t)
    /\ TreeDict.root (to_dict t) = Some r
    /\ is_digest r = true
    /\ 1 <= TreeDict.tree_depth (to_dict t)
    /\ TreeDict.leaf_count (to_dict t)
       <= 2 ^ (TreeDict.tree_depth (to_dict t) - 1)
       < 2 * TreeDict.leaf_count (to_dict t).
Proof.
  intros Hne.
  destruct (init_nonempty lvs Hne) as [rest [r [Hinit [Hchain Hlast]]]].
  eexists _, r. split; [exact Hinit |].
  unfold to_dict. cbn [TreeDict.leaves TreeDict.leaf_count
    TreeDict.leaf_hashes TreeDict.root TreeDict.tree_depth
    leaves leaf_hashes tree root].
  rewrite length_map.
  split; [reflexivity | split; [reflexivity | split; [reflexivity |]]].
  split; [reflexivity | split].
  - assert (Hr : In [r] (map _hash lvs :: rest)).
    { rewrite <- Hlast.
      assert (Hne' : map _hash lvs :: rest <> []) by discriminate.
      destruct (exists_last Hne') as [l' [a Heq]].
      rewrite Heq, last_last. apply in_or_app. right. now left. }
    assert (Hall : Forall (Forall (fun h => is_digest h = true))
                     (map _hash lvs :: rest)).
    { apply chain_digests; [exact Hchain |].
      simpl hd. apply Forall_forall. intros h Hin.
      apply in_map_iff in Hin. destruct Hin as [x [<- _]].
      apply hash_is_digest. }
    rewrite Forall_forall in Hall. specialize (Hall [r] Hr).
    now inversion Hall.
  - pose proof (chain_log2 _ Hchain) as [Hlo Hhi].
    simpl hd in Hlo, Hhi. rewrite length_map in Hlo, Hhi.
    cbn [List.length] in *. rewrite Nat.sub_succ, Nat.sub_0_r in Hlo, Hhi.
    replace (Z.of_nat (S (List.length rest)) - 1)
      with (Z.of_nat (List.length rest)) by lia.
    change 2 with (Z.of_nat 2) at 1 2.
    rewrite <- Nat2Z.inj_pow. lia.
Qed.

Lemma X9_to_dict_depth_witness :
  exists (t : MerkleTree) (r : string),
    MerkleTree_init ["a"; "b"; "c"; "d"; "e"] = Ok t
    /\ TreeDict.leaves (to_dict t) = ["a"; "b"; "c"; "d"; "e"]
    /\ TreeDict.leaf_count (to_dict t) = 5
    /\ Z.of_nat (List.length (TreeDict.leaf_hashes (to_dict t)))
       = TreeDict.leaf_count (to_dict t)
    /\ TreeDict.root (to_dict t) = Some r
    /\ is_digest r = true
    /\ 1 <= TreeDict.tree_depth (to_dict t)
    /\ TreeDict.leaf_count (to_dict t)
       <= 2 ^ (TreeDict.tree_depth (to_dict t) - 1)
       < 2 * TreeDict.leaf_count (to_dict t).
Proof.
  apply (X9_to_dict_depth ["a"; "b"; "c"; "d"; "e"]). discriminate.
Defined.

(* ===================================================================== *)
(** ** [InferenceService]: risk levels and the Merkle root of a prediction *)
(* ===================================================================== *)

(** [>=] on floats is transitive. *)
Lemma float_ge_trans (x y z : spec_float) :
  float_ge x y = true -> float_ge y z = true -> float_ge x z = true.
Proof.
  unfold float_ge, SFcompare.
  destruct x as [[|] | [|] | | [|] mx ex];
    destruct y as [[|] | [|] | | [|] my ey];
    destruct z as [[|] | [|] | | [|] mz ez];
    try (intros; first [reflexivity | discriminate]);
    compare_cases; cbn [CompOpp];
    intros; first [reflexivity | discriminate | exfalso; lia].
Qed.

Lemma float_ge_nan_l (y : spec_float) : float_ge S754_nan y = false.
Proof. reflexivity. Qed.

(** A score that reaches a threshold keeps reaching it when raised. *)
Lemma float_ge_raise (x x' threshold : spec_float) :
  float_ge x' x = true ->
  float_ge x threshold = true -> float_ge x' threshold = true.
Proof. intros H1 H2. exact (float_ge_trans _ _ _ H1 H2). Qed.

(** X10. [_calculate_risk_level] is monotone: raising the fraud score and
    the confidence (in the sense of [>=] on floats) never lowers the level
    in the order low, medium, high, critical. *)
Theorem X10_risk_level_monotone (fraud_score confidence fraud_score'
    confidence' : spec_float) :
  float_ge fraud_score' fraud_score = true ->
  float_ge confidence' confidence = true ->
  (risk_rank (_calculate_risk_level fraud_score confidence)
   <= risk_rank (_calculate_risk_level fraud_score' confidence'))%nat.
Proof.
  intros Hs Hc. unfold _calculate_risk_level.
  destruct (float_ge fraud_score double_0_85) eqn:Hs85;
    destruct (float_ge confidence double_0_90) eqn:Hc90;
    destruct (float_ge fraud_score double_0_70) eqn:Hs70;
    destruct (float_ge confidence double_0_80) eqn:Hc80;
    destruct (float_ge fraud_score double_0_50) eqn:Hs50;
    destruct (float_ge confidence double_0_70) eqn:Hc70;
    cbn [andb];
    repeat match goal with
           | H : float_ge fraud_score ?th = true |- _ =>
               lazymatch goal with
               | _ : float_ge fraud_score' th = true |- _ => fail
               | _ => pose proof (float_ge_raise _ _ th Hs H)
               end
           | H : float_ge confidence ?th = true |- _ =>
               lazymatch goal with
               | _ : float_ge confidence' th = true |- _ => fail
               | _ => pose proof (float_ge_raise _ _ th Hc H)
               end
           end;
    repeat match goal with
           | H : float_ge _ _ = true |- _ => rewrite H
           end;
    cbn [andb];
    try (cbv [risk_rank String.eqb Ascii.eqb Bool.eqb]; lia);
    destruct (float_ge fraud_score' double_0_85);
    destruct (float_ge confidence' double_0_90);
    destruct (float_ge fraud_score' double_0_70);
    destruct (float_ge confidence' double_0_80);
    destruct (float_ge fraud_score' double_0_50);
    destruct (float_ge confidence' double_0_70);
    cbv [andb risk_rank String.eqb Ascii.eqb Bool.eqb]; lia.
Qed.

Lemma X10_risk_level_monotone_witness :
  (risk_rank (_calculate_risk_level double_0_50 double_0_70)
   <= risk_rank (_calculate_risk_level double_0_85 double_0_90))%nat.
Proof.
  apply (X10_risk_level_monotone double_0_50 double_0_70
           double_0_85 double_0_90); reflexivity.
Defined.

(** X11. The levels are nested: the result is "low" exactly when
    [fraud_score >= 0.50 and confidence >= 0.70] is false, so every other
    level implies both; a NaN score or confidence gives "low". *)
Theorem X11_risk_level_low (fraud_score confidence : spec_float) :
  (_calculate_risk_level fraud_score confidence = "low"
   <-> float_ge fraud_score double_0_50 && float_ge confidence double_0_70
       = false)
  /\ _calculate_risk_level S754_nan confidence = "low"
  /\ _calculate_risk_level fraud_score S754_nan = "low".
Proof.
  assert (H85 : float_ge fraud_score double_0_85 = true ->
                float_ge fraud_score double_0_50 = true)
    by (intros H; apply (float_ge_trans _ _ _ H); reflexivity).
  assert (H70 : float_ge fraud_score double_0_70 = true ->
                float_ge fraud_score double_0_50 = true)
    by (intros H; apply (float_ge_trans _ _ _ H); reflexivity).
  assert (H90 : float_ge confidence double_0_90 = true ->
                float_ge confidence double_0_70 = true)
    by (intros H; apply (float_ge_trans _ _ _ H); reflexivity).
  assert (H80 : float_ge confidence double_0_80 = true ->
                float_ge confidence double_0_70 = true)
    by (intros H; apply (float_ge_trans _ _ _ H); reflexivity).
  split; [| split].
  - unfold _calculate_risk_level.
    destruct (float_ge fraud_score double_0_85);
      destruct (float_ge confidence double_0_90);
      destruct (float_ge fraud_score double_0_70);
      destruct (float_ge confidence double_0_80);
      try (rewrite H85 by reflexivity);
      try (rewrite H70 by reflexivity);
      try (rewrite H90 by reflexivity);
      try (rewrite H80 by reflexivity);
      cbn [andb];
      try (split; discriminate);
      destruct (float_ge fraud_score double_0_50);
      destruct (float_ge confidence double_0_70);
      cbn [andb]; split; intros; first [reflexivity | discriminate].
  - unfold _calculate_risk_level. now rewrite !float_ge_nan_l.
  - unfold _calculate_risk_level.
    rewrite !float_ge_nan_l. now rewrite !andb_false_r.
Qed.

Lemma init_five (a b c d e : string) :
  MerkleTree_init [a; b; c; d; e]
  = Ok (mkMerkleTree [a; b; c; d; e]
          [_hash a; _hash b; _hash c; _hash d; _hash e]
          [ [_hash a; _hash b; _hash c; _hash d; _hash e];
            [ _hash_pair (_hash a) (_hash b);
              _hash_pair (_hash c) (_hash d);
              _hash_pair (_hash e) (_hash e) ];
            [ _hash_pair (_hash_pair (_hash a) (_hash b))
                         (_hash_pair (_hash c) (_hash d));
              _hash_pair (_hash_pair (_hash e) (_hash e))
                         (_hash_pair (_hash e) (_hash e)) ];
            [ _hash_pair
                (_hash_pair (_hash_pair (_hash a) (_hash b))
                            (_hash_pair (_hash c) (_hash d)))
                (_hash_pair (_hash_pair (_hash e) (_hash e))
                            (_hash_pair (_hash e) (_hash e))) ] ]
          (Some (_hash_pair
                   (_hash_pair (_hash_pair (_hash a) (_hash b))
                               (_hash_pair (_hash c) (_hash d)))
                   (_hash_pair (_hash_pair (_hash e) (_hash e))
                               (_hash_pair (_hash e) (_hash e)))))).
Proof.
  unfold MerkleTree_init. cbn [map]. run_build_tree. reflexivity.
Qed.

(** X12. [_generate_merkle_proof] returns exactly when [data] has the four
    keys 'campaign_id', 'publisher_id', 'impressions' and 'clicks'; the
    result is then a 64-character hex root in which the fraud-score leaf
    is paired with itself on two levels.  Otherwise it raises [KeyError]
    for the first of these keys that is missing; the [ValueError] of the
    tree is never raised. *)
Theorem X12_generate_merkle_proof_outcome
    (data : list (string * field_value)) (fraud_score : spec_float) :
  match _generate_merkle_proof data fraud_score with
  | Returns root_ =>
      exists campaign_id publisher_id impressions clicks : field_value,
        dict_getitem data "campaign_id" = Returns campaign_id
        /\ dict_getitem data "publisher_id" = Returns publisher_id
        /\ dict_getitem data "impressions" = Returns impressions
        /\ dict_getitem data "clicks" = Returns clicks
        /\ exists r : string,
             root_ = Some r
             /\ is_digest r = true
             /\ let score_hash :=
                  _hash ("fraud_score:" ++ format_4f fraud_score) in
                let lower :=
                  _hash_pair
                    (_hash_pair
                       (_hash ("campaign_id:" ++ format_value campaign_id))
                       (_hash ("publisher_id:" ++ format_value publisher_id)))
                    (_hash_pair
                       (_hash ("impressions:" ++ format_value impressions))
                       (_hash ("clicks:" ++ format_value clicks))) in
                let upper :=
                  _hash_pair (_hash_pair score_hash score_hash)
                             (_hash_pair score_hash score_hash) in
                r = _hash_pair lower upper
  | Raises e =>
      exists (found missing : list string) (key : string),
        ["campaign_id"; "publisher_id"; "impressions"; "clicks"]
        = found ++ key :: missing
        /\ e = KeyError key
        /\ dict_getitem data key = Raises (KeyError key)
        /\ Forall (fun k => exists v, dict_getitem data k = Returns v) found
  end.
Proof.
  assert (Hmiss : forall key e,
            dict_getitem data key = Raises e -> e = KeyError key).
  { intros key e. induction data as [| [k v] data IH]; simpl.
    - congruence.
    - destruct (String.eqb k key); [discriminate | exact IH]. }
  unfold _generate_merkle_proof.
  destruct (dict_getitem data "campaign_id") as [c | e] eqn:Hc; cbn [and_then].
  2: { exists [], ["publisher_id"; "impressions"; "clicks"], "campaign_id".
       pose proof (Hmiss _ _ Hc) as ->.
       split; [reflexivity | split; [reflexivity | split; [exact Hc |]]].
       constructor. }
  destruct (dict_getitem data "publisher_id") as [p | e] eqn:Hp;
    cbn [and_then].
  2: { exists ["campaign_id"], ["impressions"; "clicks"], "publisher_id".
       pose proof (Hmiss _ _ Hp) as ->.
       split; [reflexivity | split; [reflexivity | split; [exact Hp |]]].
       repeat constructor. now exists c. }
  destruct (dict_getitem data "impressions") as [i | e] eqn:Hi;
    cbn [and_then].
  2: { exists ["campaign_id"; "publisher_id"], ["clicks"], "impressions".
       pose proof (Hmiss _ _ Hi) as ->.
       split; [reflexivity | split; [reflexivity | split; [exact Hi |]]].
       repeat constructor; [now exists c | now exists p]. }
  destruct (dict_getitem data "clicks") as [k | e] eqn:Hk; cbn [and_then].
  2: { exists ["campaign_id"; "publisher_id"; "impressions"], [], "clicks".
       pose proof (Hmiss _ _ Hk) as ->.
       split; [reflexivity | split; [reflexivity | split; [exact Hk |]]].
       repeat constructor; [now exists c | now exists p | now exists i]. }
  cbv zeta. rewrite init_five.
  exists c, p, i, k. do 4 (split; [reflexivity |]).
  eexists. split; [reflexivity | split; [| reflexivity]].
  unfold _hash_pair. apply hash_is_digest.
Qed.
